(** * Tag-rename tool: name sanitising, name planning, two-phase rename

    A shallow embedding of the rename pipeline of the repository
    ([core/utils.py], [core/planner.py], [core/renamer.py],
    [core/ocr_client.py] and the control flow of [AiWorker.run] in
    [ui/pages/ai_task_page.py]) together with the properties its
    specification states about it.

    Conventions.
    - A Python [str] is a list of Unicode code points, each an [N].
    - A Python [set] of strings is a [gset]; a [dict] whose iteration order
      matters is an association list.
    - A [pathlib.Path] is the list of its parts.
    - The file system is an explicit store threaded through every
      operation; an operation that raises returns [None].
    - What the outside world decides (random tokens, detector and OCR
      answers, cancellation) is an argument of the function it feeds. *)

From Stdlib Require Import NArith Ascii String List Lia Bool.
From stdpp Require Import base decidable countable list gmap sets pretty.

Local Open Scope N_scope.

(** ** Python strings *)

Module PyStr.

Abbreviation str := (list N).

(** An ASCII literal as a Python string. *)
Definition py (s : string) : str := map N_of_ascii (list_ascii_of_string s).

Definition in_range (lo hi c : N) : bool := (lo <=? c) && (c <=? hi).

Definition is_upper_az (c : N) : bool := in_range 65 90 c.
Definition is_lower_az (c : N) : bool := in_range 97 122 c.
Definition is_digit (c : N) : bool := in_range 48 57 c.
Definition dash : N := 45.
Definition underscore : N := 95.
Definition is_dash (c : N) : bool := c =? dash.

(** [str.isspace] for one code point: the characters [str.strip()]
    removes when called without argument. *)
Definition is_space (c : N) : bool :=
  in_range 9 13 c || in_range 28 32 c || (c =? 133) || (c =? 160)
  || (c =? 5760) || in_range 8192 8202 c || (c =? 8232) || (c =? 8233)
  || (c =? 8239) || (c =? 8287) || (c =? 12288).

Fixpoint drop_while (p : N -> bool) (s : str) : str :=
  match s with
  | [] => []
  | c :: r => if p c then drop_while p r else s
  end.

Definition lstrip (p : N -> bool) (s : str) : str := drop_while p s.
Definition rstrip (p : N -> bool) (s : str) : str := rev (drop_while p (rev s)).

(** [s.strip(chars)]: [p] tells which characters are stripped. *)
Definition strip (p : N -> bool) (s : str) : str := rstrip p (lstrip p s).

(** [str.upper] and [str.lower] on ASCII letters; a code point outside
    [A-Za-z] is returned as it is.  [sanitize_and_upper] applies [upper]
    to strings over [A-Za-z0-9_-] only (lemma [before_upper_allowed]),
    where this is exactly Python's function; the extensions the run
    lower-cases are those of [IMG_EXTS], which are ASCII as well. *)
Definition upper_char (c : N) : N := if is_lower_az c then c - 32 else c.
Definition lower_char (c : N) : N := if is_upper_az c then c + 32 else c.
Definition upper (s : str) : str := map upper_char s.
Definition lower (s : str) : str := map lower_char s.

(** [s.startswith(pre)] *)
Fixpoint startswith (pre s : str) : bool :=
  match pre, s with
  | [], _ => true
  | a :: pre', b :: s' => (a =? b) && startswith pre' s'
  | _ :: _, [] => false
  end.

(** [s.replace(pat, "")] for a non-empty [pat]: every occurrence found
    scanning from the left is removed; [skip] counts the characters of
    the current occurrence still to be dropped. *)
Fixpoint remove_go (pat : str) (skip : nat) (s : str) : str :=
  match s with
  | [] => []
  | c :: r =>
      match skip with
      | S k => remove_go pat k r
      | O => if startswith pat s then remove_go pat (Nat.pred (length pat)) r
             else c :: remove_go pat 0 r
      end
  end.

Definition remove_all (pat s : str) : str := remove_go pat 0 s.

(** [str(n)] for a non-negative integer. *)
Definition str_of_nat (n : nat) : str := py (pretty n).

End PyStr.
Import PyStr.

(** ** Regular expressions over code points *)

Module Regex.

Inductive re : Type :=
| Void : re
| Eps : re
| Class : (N -> bool) -> re
| Seq : re -> re -> re
| Alt : re -> re -> re
| Star : re -> re.

(** [Matches r s]: the whole of [s] is a word of [r]. *)
Inductive Matches : re -> str -> Prop :=
| MEps : Matches Eps []
| MClass p c : p c = true -> Matches (Class p) [c]
| MSeq r1 r2 s1 s2 : Matches r1 s1 -> Matches r2 s2 -> Matches (Seq r1 r2) (s1 ++ s2)
| MAltL r1 r2 s : Matches r1 s -> Matches (Alt r1 r2) s
| MAltR r1 r2 s : Matches r2 s -> Matches (Alt r1 r2) s
| MStar0 r : Matches (Star r) []
| MStarS r s1 s2 : Matches r s1 -> Matches (Star r) s2 -> Matches (Star r) (s1 ++ s2).

Fixpoint nullable (r : re) : bool :=
  match r with
  | Void => false
  | Eps => true
  | Class _ => false
  | Seq r1 r2 => nullable r1 && nullable r2
  | Alt r1 r2 => nullable r1 || nullable r2
  | Star _ => true
  end.

(** Brzozowski derivative of [r] by the character [c]. *)
Fixpoint deriv (c : N) (r : re) : re :=
  match r with
  | Void => Void
  | Eps => Void
  | Class p => if p c then Eps else Void
  | Seq r1 r2 =>
      if nullable r1 then Alt (Seq (deriv c r1) r2) (deriv c r2)
      else Seq (deriv c r1) r2
  | Alt r1 r2 => Alt (deriv c r1) (deriv c r2)
  | Star r1 => Seq (deriv c r1) (Star r1)
  end.

Fixpoint re_match (r : re) (s : str) : bool :=
  match s with
  | [] => nullable r
  | c :: s' => re_match (deriv c r) s'
  end.

Definition Opt (r : re) : re := Alt Eps r.

End Regex.
Import Regex.

(** ** [core/utils.py]: sanitize_and_upper *)

(** The class [[A-Za-z0-9\-_]] whose complement [_SANITIZE_RE] matches. *)
Definition allowed (c : N) : bool :=
  is_upper_az c || is_lower_az c || is_digit c || (c =? dash) || (c =? underscore).

Definition disallowed (c : N) : bool := negb (allowed c).

(** [re.sub(bad+, "-", s)]: every maximal run of characters of the class
    [bad] becomes one ["-"]; [in_run] says that the previous character
    belonged to the run being replaced. *)
Fixpoint sub_runs (bad : N -> bool) (in_run : bool) (s : str) : str :=
  match s with
  | [] => []
  | c :: r =>
      if bad c then
        if in_run then sub_runs bad true r else dash :: sub_runs bad true r
      else c :: sub_runs bad false r
  end.

(** [re.sub(r"-{2,}", "-", s)]: a dash followed by a dash is dropped, so
    that of each run of two or more only the last one stays. *)
Fixpoint collapse_dashes (s : str) : str :=
  match s with
  | [] => []
  | c :: r =>
      if is_dash c then
        match r with
        | d :: _ => if is_dash d then collapse_dashes r else c :: collapse_dashes r
        | [] => [c]
        end
      else c :: collapse_dashes r
  end.

Definition sanitize_and_upper (s : str) : str :=
  let s := strip is_space s in
  let s := sub_runs disallowed false s in
  let s := collapse_dashes s in
  upper (strip is_dash s).

(** The output alphabet [[A-Z0-9-_]] and its parts. *)
Definition alnum_up (c : N) : bool := is_upper_az c || is_digit c.
Definition word_up (c : N) : bool := alnum_up c || (c =? underscore).
Definition out_char (c : N) : bool := word_up c || is_dash c.

Definition starts_with_dash (s : str) : bool :=
  match s with c :: _ => is_dash c | [] => false end.
Definition ends_with_dash (s : str) : bool := starts_with_dash (rev s).

(** No two neighbouring dashes. *)
Fixpoint no_dash_run (s : str) : bool :=
  match s with
  | c :: r => negb (is_dash c && starts_with_dash r) && no_dash_run r
  | [] => true
  end.

(** The shape the component contract promises. *)
Definition well_formed_token (t : str) : Prop :=
  forallb out_char t = true /\ starts_with_dash t = false
  /\ ends_with_dash t = false /\ no_dash_run t = true.

(** The expression [^[A-Z0-9](-?[A-Z0-9_])*$] of the specification. *)
Definition token_re : re :=
  Seq (Class alnum_up) (Star (Seq (Opt (Class is_dash)) (Class word_up))).

(** The same with the underscore admitted in first position. *)
Definition token_re_us : re :=
  Seq (Class word_up) (Star (Seq (Opt (Class is_dash)) (Class word_up))).


(** ** [core/planner.py]: plan_name *)

(** The candidate [f"{base}-{idx}"]. *)
Definition stem_of (base : str) (idx : nat) : str :=
  base ++ py "-" ++ str_of_nat idx.

(** The [while True] loop of [plan_name], run for at most [fuel] rounds
    from the counter [idx]. *)
Fixpoint plan_search (fuel : nat) (base : str) (idx : nat) (existing : gset str)
  : option str :=
  match fuel with
  | O => None
  | S k =>
      let stem := stem_of base idx in
      if decide (stem ∉ existing) then Some stem
      else plan_search k base (S idx) existing
  end.

(** [plan_name] returns the final name and the index set as the call
    leaves it (the Python set is updated in place).  The loop gets
    [size existing + 1] rounds; [plan_search_total] shows that it never
    needs more, and [plan_search_more_fuel] that more rounds change
    nothing. *)
Definition plan_name (base ext : str) (existing : gset str) (duplicates : bool)
  : option (str * gset str) :=
  let base := sanitize_and_upper base in
  let ext := lower ext in
  if negb duplicates then Some (base ++ ext, existing)
  else
    match plan_search (S (size existing)) base 1 existing with
    | Some stem => Some (stem ++ ext, {[stem]} ∪ existing)
    | None => None
    end.

(** A run of calls that share one index set, all with duplicates
    enabled: the names returned, in order, and the final index. *)
Fixpoint plan_all (calls : list (str * str)) (existing : gset str)
  : option (list str * gset str) :=
  match calls with
  | [] => Some ([], existing)
  | (base, ext) :: rest =>
      match plan_name base ext existing true with
      | Some (name, existing') =>
          match plan_all rest existing' with
          | Some (names, final) => Some (name :: names, final)
          | None => None
          end
      | None => None
      end
  end.

(** The stem of a returned name: the name without the (lower-cased)
    extension it was given. *)
Definition strip_ext (name ext : str) : str :=
  take (length name - length (lower ext))%nat name.

(** ** Paths and the file system *)

Module PyPath.

(** A path is the list of its parts; its name is the last part. *)
Abbreviation path := (list str).

Inductive platform : Type := Posix | Windows.

Definition name (p : path) : str := List.last p [].
Definition parent (p : path) : path := removelast p.

(** [p / n] *)
Definition joinpath (p : path) (n : str) : path := p ++ [n].

Definition is_sep (os : platform) (c : N) : bool :=
  (c =? 47) || match os with Windows => c =? 92 | Posix => false end.

(** What [with_name] accepts as a new name. *)
Definition valid_name (os : platform) (n : str) : bool :=
  negb (bool_decide (n = [])) && negb (bool_decide (n = py "."))
  && forallb (fun c => negb (is_sep os c)) n.

(** [p.with_name(n)]; [None] stands for the [ValueError] raised when [p]
    has no name or [n] is not a name. *)
Definition with_name (os : platform) (p : path) (n : str) : option path :=
  if bool_decide (name p = []) then None
  else if valid_name os n then Some (joinpath (parent p) n)
  else None.

(** [s.rfind(c)] *)
Fixpoint rfind (c : N) (s : str) : option nat :=
  match s with
  | [] => None
  | d :: r =>
      match rfind c r with
      | Some i => Some (S i)
      | None => if d =? c then Some O else None
      end
  end.

(** Position of the dot that starts the suffix of a name, if it has one. *)
Definition suffix_at (n : str) : option nat :=
  match rfind 46 n with
  | Some i => if ((0 <? i) && (i <? length n - 1))%nat then Some i else None
  | None => None
  end.

Definition suffix (p : path) : str :=
  match suffix_at (name p) with Some i => drop i (name p) | None => [] end.

Definition stem (p : path) : str :=
  match suffix_at (name p) with Some i => take i (name p) | None => name p end.

(** [p.relative_to(base)]; [None] stands for its [ValueError]. *)
Definition relative_to (p base : path) : option path :=
  if bool_decide (base `prefix_of` p) then Some (drop (length base) p) else None.

(** [str(p)] *)
Fixpoint path_str (p : path) : str :=
  match p with
  | [] => py "."
  | [n] => n
  | n :: r => n ++ py "/" ++ path_str r
  end.

End PyPath.
Import PyPath.

Module FileSystem.

(** What a file holds: opaque data, named by a number, or a table written
    through [csv.writer], kept as its rows. *)
Inductive content : Type :=
| Blob (id : N)
| Table (rows : list (list str)).

(** The store.  [files] maps the path of each regular file to its
    content; [denied] lists the paths the operating system refuses to
    rename, create or delete (a read-only directory, a file held open by
    another process); [renames] counts the renames that took effect. *)
Record FS : Type := mkFS {
  files : gmap path content;
  denied : gset path;
  renames : nat
}.

(** [p.exists()] *)
Definition fs_exists (fs : FS) (p : path) : bool :=
  bool_decide (is_Some (files fs !! p)).

(** [src.rename(dst)], i.e. [os.rename].  [None]: the call raises
    ([PermissionError], [FileNotFoundError], and on Windows
    [FileExistsError] when the target is there).  On a POSIX system an
    existing target file is replaced silently. *)
Definition os_rename (os : platform) (fs : FS) (src dst : path) : option FS :=
  if bool_decide (src ∈ denied fs ∨ dst ∈ denied fs) then None
  else
    match files fs !! src with
    | None => None
    | Some c =>
        if bool_decide (src = dst) then
          Some (mkFS (files fs) (denied fs) (S (renames fs)))
        else if fs_exists fs dst && match os with Windows => true | Posix => false end
        then None
        else Some (mkFS (<[dst := c]> (delete src (files fs))) (denied fs)
                        (S (renames fs)))
    end.

(** [ensure_dir]: directories are not entries of the store. *)
Definition ensure_dir (fs : FS) (p : path) : FS := fs.

Definition strictly_under (target p : path) : Prop :=
  target `prefix_of` p ∧ target ≠ p.

(** [safe_clean_dir]: whatever lies under [target] and can be deleted, is. *)
Definition safe_clean_dir (fs : FS) (target : path) : FS :=
  mkFS (filter (fun kv => ¬ (strictly_under target kv.1 ∧ kv.1 ∉ denied fs))
               (files fs))
       (denied fs) (renames fs).

(** The contents the store holds, one entry per file. *)
Definition contents (fs : FS) : list content := (map_to_list (files fs)).*2.

End FileSystem.
Import FileSystem.

(** [collect_existing_basenames]: the upper-cased stems of the files
    lying directly in [folder]. *)
Definition collect_existing_basenames (fs : FS) (folder : path) : gset str :=
  set_map (fun p => upper (stem p))
          (filter (fun p => parent p = folder ∧ p ≠ []) (dom (files fs))).

(** ** [core/utils.py]: two_phase_rename *)

Definition TMP_MARK : str := py "__TMP__".

(** [f"__TMP__{uuid.uuid4().hex}__{src.name}"] *)
Definition quarantine_name (token n : str) : str :=
  TMP_MARK ++ token ++ py "__" ++ n.

(** [d[k] = v] on a dictionary kept in insertion order. *)
Fixpoint dict_set (d : list (path * path)) (k v : path) : list (path * path) :=
  match d with
  | [] => [(k, v)]
  | (k', v') :: r =>
      if bool_decide (k = k') then (k', v) :: r else (k', v') :: dict_set r k v
  end.

Section TwoPhase.

(** The platform, and the tokens drawn from [uuid.uuid4().hex]: the
    [k]-th call returns [uuid k]. *)
Variable os : platform.
Variable uuid : nat -> str.

(** Stage 1.  [None] in the first component: the [ValueError] of
    [with_name], which is raised outside the [try], leaves the function. *)
Fixpoint stage1 (k : nat) (pairs tmp_map : list (path * path)) (fs : FS)
  : option (list (path * path)) * FS :=
  match pairs with
  | [] => (Some tmp_map, fs)
  | (src, dst) :: rest =>
      if negb (fs_exists fs src) then stage1 k rest tmp_map fs
      else
        match with_name os src (quarantine_name (uuid k) (name src)) with
        | None => (None, fs)
        | Some tmp =>
            match os_rename os fs src tmp with
            | Some fs' => stage1 (S k) rest (dict_set tmp_map tmp dst) fs'
            | None => stage1 (S k) rest tmp_map fs
            end
        end
  end.

(** The rollback inside stage 2; every exception is swallowed. *)
Definition rollback (fs : FS) (tmp dst : path) : FS :=
  match with_name os dst (remove_all TMP_MARK (name dst)) with
  | Some orig =>
      match os_rename os fs tmp orig with
      | Some fs' => fs'
      | None => fs
      end
  | None => fs
  end.

(** Stage 2 *)
Fixpoint stage2 (tmp_map : list (path * path)) (ok fail : nat) (fs : FS)
  : (nat * nat) * FS :=
  match tmp_map with
  | [] => ((ok, fail), fs)
  | (tmp, dst) :: rest =>
      if fs_exists fs dst then stage2 rest ok (S fail) (rollback fs tmp dst)
      else
        match os_rename os fs tmp dst with
        | Some fs' => stage2 rest (S ok) fail fs'
        | None => stage2 rest ok (S fail) fs
        end
  end.

(** The counts returned ([None]: an exception left the function) and the
    store as the call leaves it. *)
Definition two_phase_rename (pairs : list (path * path)) (fs : FS)
  : option (nat * nat) * FS :=
  match stage1 O pairs [] fs with
  | (Some tmp_map, fs1) =>
      let '(counts, fs2) := stage2 tmp_map O O fs1 in (Some counts, fs2)
  | (None, fs1) => (None, fs1)
  end.

(** ** [core/renamer.py] *)

Definition perform_batch_rename (pairs : list (path * path)) (dry_run : bool)
  (fs : FS) : option (nat * nat) * FS :=
  if dry_run then (Some (O, O), fs) else two_phase_rename pairs fs.

End TwoPhase.

Definition LEDGER_HEADER : list str :=
  [py "src_dir"; py "old_name"; py "ocr_text"; py "base"; py "final_name"; py "status"].

(** [write_mapping_csv]; [None]: [open] raises. *)
Definition write_mapping_csv (fs : FS) (csv_path : path) (rows : list (list str))
  : option FS :=
  if bool_decide (csv_path ∈ denied fs) then None
  else Some (mkFS (<[csv_path := Table (LEDGER_HEADER :: rows)]> (files fs))
                  (denied fs) (renames fs)).

(** ** [core/ocr_client.py] *)

Record ArkConfig : Type := mkArk {
  ark_model : str;
  api_key : option str;
  base_url : str
}.

(** Truth value of an optional string: [None] and [""] are false. *)
Definition truthy (o : option str) : bool :=
  match o with
  | Some (_ :: _) => true
  | _ => false
  end.

(** [a or b] *)
Definition py_or (a b : option str) : option str := if truthy a then a else b.

Definition DEFAULT_ARK_BASE_URL : str :=
  py "https://ark.cn-beijing.volces.com/api/v3".

(** The marker ["[OCR" ++ U+9519 U+8BEF ++ "]"] that starts an error answer. *)
Definition OCR_ERROR_MARK : str := [91; 79; 67; 82; 38169; 35823; 93].

(** [OCRClient.ocr].  [env_key] is [os.environ.get("ARK_API_KEY")];
    [sdk_text] and [rest_text] are what [_sdk_call] and [_rest_call]
    answer for this image when they are asked. *)
Definition ocr (cfg : ArkConfig) (env_key : option str) (sdk_text rest_text : str)
  : str :=
  let key := py_or (api_key cfg) env_key in
  if negb (truthy key) then py "UNKNOWN"
  else if truthy (Some sdk_text) then sdk_text
  else rest_text.

(** ** [ui/pages/ai_task_page.py]: AiWorker.run *)

Record TaskParams : Type := mkParams {
  input_dir : path;
  crops_dir : option path;
  save_crops : bool;
  out_root : path;
  clean_out : bool;
  ark_model_name : str;
  ark_key : str;
  duplicates : bool;
  dry_run : bool
}.

(** One image as the run meets it: its path, and what the outside world
    answers while it is processed. *)
Record image : Type := mkImage {
  img_path : path;
  cancel_seen : bool;       (* [self._cancel.is_set()] at the top of its round *)
  opens : bool;             (* [Image.open] and [exif_transpose] succeed *)
  detect : option bool;     (* [None]: detection or cropping raises;
                               [Some b]: [b] tells whether a box of the target class was found *)
  crop_saved : bool;        (* [crop.save] succeeds *)
  crop_data : N;
  sdk_answer : str;
  rest_answer : str
}.

Record Stats : Type := mkStats {
  total : nat;
  planned : nat;
  renamed_ok : nat;
  renamed_fail : nat
}.

(** The variables of the loop, and the store. *)
Record loop_state : Type := mkLoop {
  cleaned_subdirs : gset path;
  existing_map : gmap path (gset str);
  rows : list (list str);
  plan_pairs : list (path * path);
  disk : FS
}.

Inductive step_result : Type :=
| Next (st : loop_state)       (* the round ends, by [continue] or at its last line *)
| Escapes (st : loop_state).   (* an exception leaves the loop *)

Definition ledger_row (im : image) (ocr_text base final status : str) : list str :=
  [path_str (parent (img_path im)); name (img_path im); ocr_text; base; final; status].

Section Run.

Variable os : platform.
Variable uuid : nat -> str.
Variable p : TaskParams.
Variable env_key : option str.

(** The destination sub-directory of an image. *)
Definition sub_out_of (im : image) : path :=
  let first :=
    match relative_to (parent (img_path im)) (input_dir p) with
    | Some rel => match rel with f :: _ => f | [] => name (input_dir p) end
    | None => name (parent (img_path im))
    end in
  joinpath (out_root p) (first ++ py "_output").

Definition crop_dir : option path :=
  if save_crops p then crops_dir p else None.

(** Saving the crop; a failure is swallowed. *)
Definition save_crop (im : image) (fs : FS) : FS :=
  match crop_dir with
  | None => fs
  | Some d =>
      let file := joinpath d (name (parent (img_path im)) ++ py "_" ++ stem (img_path im)
                              ++ py "_cropped" ++ lower (suffix (img_path im))) in
      if crop_saved im && negb (bool_decide (file ∈ denied fs))
      then mkFS (<[file := Blob (crop_data im)]> (files fs)) (denied fs) (renames fs)
      else fs
  end.

(** The body of the [for] loop, after the cancellation test.  The
    signals [log] and [progress] are not part of the model.  The branch
    for a [plan_name] that does not return is never taken
    ([plan_name_total]). *)
Definition process_image (im : image) (st : loop_state) : step_result :=
  let sub_out := sub_out_of im in
  let '(cleaned, fs) :=
    if bool_decide (sub_out ∉ cleaned_subdirs st) then
      let fs := ensure_dir (disk st) sub_out in
      let fs := if clean_out p then safe_clean_dir fs sub_out else fs in
      ({[sub_out]} ∪ cleaned_subdirs st, fs)
    else (cleaned_subdirs st, disk st) in
  let emap :=
    match existing_map st !! sub_out with
    | Some _ => existing_map st
    | None => <[sub_out := collect_existing_basenames fs sub_out]> (existing_map st)
    end in
  let st := mkLoop cleaned emap (rows st) (plan_pairs st) fs in
  let row status text base final :=
    mkLoop cleaned emap (rows st ++ [ledger_row im text base final (py status)])
           (plan_pairs st) in
  if negb (opens im) then Next (row "READ_FAIL" [] [] [] fs)
  else
    match detect im with
    | None => Escapes st
    | Some false => Next (row "NO_DET" [] [] [] fs)
    | Some true =>
        let fs := save_crop im fs in
        let ocr_text :=
          ocr (mkArk (ark_model_name p) (Some (ark_key p)) DEFAULT_ARK_BASE_URL)
              env_key (sdk_answer im) (rest_answer im) in
        if negb (truthy (Some ocr_text)) || startswith OCR_ERROR_MARK ocr_text
        then Next (row "NO_TEXT" ocr_text [] [] fs)
        else
          let base := sanitize_and_upper ocr_text in
          match plan_name base (lower (suffix (img_path im)))
                          (default ∅ (emap !! sub_out)) (duplicates p) with
          | None => Escapes (mkLoop cleaned emap (rows st) (plan_pairs st) fs)
          | Some (final, index) =>
              let dst := joinpath sub_out final in
              Next (mkLoop cleaned (<[sub_out := index]> emap)
                           (rows st ++ [ledger_row im ocr_text base final (py "PLANNED")])
                           (plan_pairs st ++ [(img_path im, dst)]) fs)
          end
    end.

(** The [for] loop: [break] on cancellation. *)
Fixpoint process_all (images : list image) (st : loop_state) : step_result :=
  match images with
  | [] => Next st
  | im :: rest =>
      if cancel_seen im then Next st
      else
        match process_image im st with
        | Next st' => process_all rest st'
        | Escapes st' => Escapes st'
        end
  end.

(** What [finished.emit(code, stats)] reports, and the store at that point. *)
Record report : Type := mkReport {
  code : nat;
  stats : Stats;
  final_disk : FS
}.

(** [AiWorker.run].  [setup_ok] tells whether the steps before the
    listing (creating the output root and the crop directory, loading
    the detector, listing the images) go through without raising;
    [images] is the list [iter_images] yields. *)
Definition run (setup_ok : bool) (images : list image) (fs : FS) : report :=
  let stats0 := mkStats 0 0 0 0 in
  if negb setup_ok then mkReport 1 stats0 fs
  else
    let stats1 := mkStats (length images) 0 0 0 in
    if (length images =? 0)%nat then mkReport 0 stats1 fs
    else
      match process_all images (mkLoop ∅ ∅ [] [] fs) with
      | Escapes st => mkReport 1 stats1 (disk st)
      | Next st =>
          match write_mapping_csv (disk st)
                  (joinpath (input_dir p) (py "rename_mapping.csv")) (rows st) with
          | None => mkReport 1 stats1 (disk st)
          | Some fs1 =>
              match perform_batch_rename os uuid (plan_pairs st) (dry_run p) fs1 with
              | (None, fs2) => mkReport 1 stats1 fs2
              | (Some (ok, fail), fs2) =>
                  mkReport 0 (mkStats (length images) (length (plan_pairs st)) ok fail) fs2
              end
          end
      end.

End Run.

(** The state a round of the loop leaves. *)
Definition after (r : step_result) : loop_state :=
  match r with Next st => st | Escapes st => st end.

(** ** Sample data *)

(** Tokens of 32 hexadecimal digits (for [k < 10]). *)
Definition hex_token (k : nat) : str :=
  py "9f2c4e6a8b0d1f3a5c7e9b1d3f5a7c9" ++ str_of_nat k.

Definition img_a : path := [py "photos"; py "a.png"].
Definition img_b : path := [py "photos"; py "b.png"].
Definition dest_x : path := [py "photos_output"; py "TAG.png"].

(** Two images with different contents, nothing else. *)
Definition disk_ab : FS :=
  mkFS (<[img_a := Blob 1]> (<[img_b := Blob 2]> ∅)) ∅ 0.

(** One image, which the operating system refuses to rename. *)
Definition disk_a_denied : FS := mkFS {[img_a := Blob 1]} {[img_a]} 0.

Definition sample_params : TaskParams :=
  mkParams [py "photos"] None false [py "out"] false (py "doubao") [] true true.

Definition sample_image : image :=
  mkImage img_a false true (Some true) false 7 [] [].

Definition empty_loop (fs : FS) : loop_state := mkLoop ∅ ∅ [] [] fs.

(** ** Further notions used by the properties *)

(** The class [[A-Za-z0-9_]]: the characters [sanitize_and_upper] keeps. *)
Definition is_word (c : N) : bool := allowed c && negb (is_dash c).

(** An extension as [Path.suffix] returns it when there is one: a dot
    followed by at least one character, none of them a dot. *)
Definition is_suffix_form (e : str) : bool :=
  match e with
  | c :: (_ :: _) as r => (c =? 46) && forallb (fun x => negb (x =? 46)) r
  | _ => false
  end.

(** The quarantine paths stage 1 computes for the sources [srcs], the
    first of them with the token number [k]; [None] if [with_name]
    raises for one of them. *)
Fixpoint quarantine_paths (os : platform) (uuid : nat -> str) (k : nat)
  (srcs : list path) : option (list path) :=
  match srcs with
  | [] => Some []
  | s :: r =>
      match with_name os s (quarantine_name (uuid k) (name s)),
            quarantine_paths os uuid (S k) r with
      | Some t, Some ts => Some (t :: ts)
      | _, _ => None
      end
  end.

(** The files of a store after the file at [a] has been moved to [b], for
    each [(a, b)] of a list in turn. *)
Fixpoint move_all (m : gmap path content) (moves : list (path * path))
  : gmap path content :=
  match moves with
  | [] => m
  | (a, b) :: r =>
      match m !! a with
      | Some c => move_all (<[b := c]> (delete a m)) r
      | None => move_all m r
      end
  end.

(** A list of moves that cannot interfere: the sources are distinct and
    present, the targets distinct and absent, and none of them is denied. *)
Definition clean_moves (m : gmap path content) (D : gset path)
  (moves : list (path * path)) : Prop :=
  NoDup moves.*1 /\ NoDup moves.*2
  /\ Forall (fun ab => is_Some (m !! ab.1) /\ m !! ab.2 = None
                       /\ (ab.1 ∉ D) /\ (ab.2 ∉ D)) moves.

(** The store and the index map of a round of the loop once the
    destination folder of the image has been prepared. *)
Definition prepared_disk (p : TaskParams) (im : image) (st : loop_state) : FS :=
  if bool_decide (sub_out_of p im ∉ cleaned_subdirs st) && clean_out p
  then safe_clean_dir (disk st) (sub_out_of p im)
  else disk st.

Definition prepared_map (p : TaskParams) (im : image) (st : loop_state)
  : gmap path (gset str) :=
  match existing_map st !! sub_out_of p im with
  | Some _ => existing_map st
  | None =>
      <[sub_out_of p im :=
          collect_existing_basenames (prepared_disk p im st) (sub_out_of p im)]>
        (existing_map st)
  end.

(** The answer of the OCR call for an image, and the test the run makes
    on it. *)
Definition ocr_answer (p : TaskParams) (env : option str) (im : image) : str :=
  ocr (mkArk (ark_model_name p) (Some (ark_key p)) DEFAULT_ARK_BASE_URL) env
      (sdk_answer im) (rest_answer im).

Definition no_text (t : str) : bool :=
  negb (truthy (Some t)) || startswith OCR_ERROR_MARK t.

(** The status of a ledger row: its last field. *)
Definition row_status (row : list str) : str := List.last row [].

Definition is_planned_row (row : list str) : bool :=
  bool_decide (row_status row = py "PLANNED").

(** Where a run writes its ledger. *)
Definition ledger_path (p : TaskParams) : path :=
  joinpath (input_dir p) (py "rename_mapping.csv").

(** The queued destinations are distinct and each has its stem in the
    index of its folder. *)
Definition destinations_reserved (st : loop_state) : Prop :=
  NoDup (plan_pairs st).*2
  /\ forall dst, dst ∈ (plan_pairs st).*2 ->
       exists idx, existing_map st !! parent dst = Some idx /\ stem dst ∈ idx.

(** A run with an API key, duplicates enabled, really renaming; and an
    image whose tag the OCR back end reads as ["???"]. *)
Definition keyed_params : TaskParams :=
  mkParams [py "photos"] None false [py "out"] false (py "doubao") (py "k3y") true false.

Definition garbled_image : image :=
  mkImage img_a false true (Some true) false 7 (py "???") [].

(** ** [ui/pages/manual_task_page.py]: the manual page *)

Module Manual.

Local Open Scope Z_scope.

(** The text fields and switches of the form, and the "keep" flags. *)
Record fields : Type := mkFields {
  edit_prefix : str;
  edit_middle : str;
  edit_suffix_custom : str;
  combo_suffix_num : str;            (* current text: [""], ["1"], ["2"] or ["3"] *)
  sw_suffix_custom_enable : bool;
  keep_prefix : bool;
  keep_middle : bool;
  keep_suffix_num : bool;
  keep_suffix_custom : bool
}.

(** [self._images], [self._cur] (with [-1] for "no image") and the form. *)
Record page : Type := mkPage {
  images : list path;
  cur : Z;
  form : fields
}.

(** How a slot ends: normally, by an exception, or (in the model only)
    with the rounds granted to a loop used up. *)
Inductive outcome (A : Type) : Type :=
| Done (a : A)
| Raises
| Timeout.
Arguments Done {A} a.
Arguments Raises {A}.
Arguments Timeout {A}.

(** [_compose_base] *)
Definition compose_base (f : fields) : str :=
  let head := strip is_space (edit_prefix f) ++ strip is_space (edit_middle f) in
  let suffix :=
    if sw_suffix_custom_enable f then strip is_space (edit_suffix_custom f)
    else
      let num := strip is_space (combo_suffix_num f) in
      if truthy (Some num) then py "-" ++ num else [] in
  head ++ suffix.

Definition shown (pg : page) : bool :=
  (0 <=? cur pg) && (cur pg <? Z.of_nat (length (images pg))).

(** What [_load_current] does to the form when an image is shown. *)
Definition clear_fields (f : fields) : fields :=
  mkFields
    (if keep_prefix f then edit_prefix f else [])
    (if keep_middle f then edit_middle f else [])
    (if sw_suffix_custom_enable f
     then (if keep_suffix_custom f then edit_suffix_custom f else [])
     else edit_suffix_custom f)
    (if sw_suffix_custom_enable f then combo_suffix_num f
     else (if keep_suffix_num f then combo_suffix_num f else []))
    (sw_suffix_custom_enable f)
    (keep_prefix f) (keep_middle f) (keep_suffix_num f) (keep_suffix_custom f).

Definition load_current (pg : page) : page :=
  if shown pg then mkPage (images pg) (cur pg) (clear_fields (form pg)) else pg.

Definition prev (pg : page) : page :=
  if cur pg <=? 0 then pg
  else load_current (mkPage (images pg) (cur pg - 1) (form pg)).

Definition next (pg : page) : page :=
  if cur pg <? 0 then pg
  else if cur pg + 1 <? Z.of_nat (length (images pg))
       then load_current (mkPage (images pg) (cur pg + 1) (form pg))
       else pg.

(** The [while True] loop of [save_and_next], from the number [n], for at
    most [fuel] rounds. *)
Fixpoint free_name (fuel : nat) (os : platform) (fs : FS) (src : path)
  (base ext : str) (n : nat) : outcome path :=
  match fuel with
  | O => Timeout
  | S k =>
      match with_name os src (base ++ py "-" ++ str_of_nat n ++ ext) with
      | None => Raises
      | Some cand =>
          if fs_exists fs cand then free_name k os fs src base ext (S n)
          else Done cand
      end
  end.

(** [save_and_next]: the page and the store as the slot leaves them.  The
    loop gets one round more than there are files ([free_name_total]). *)
Definition save_and_next (os : platform) (pg : page) (fs : FS)
  : outcome (page * FS) :=
  if cur pg <? 0 then Done (pg, fs)
  else
    match images pg !! Z.to_nat (cur pg) with
    | None => Raises
    | Some src =>
        let base := sanitize_and_upper (compose_base (form pg)) in
        if truthy (Some base) then
          let ext := lower (suffix src) in
          match with_name os src (base ++ ext) with
          | None => Raises
          | Some dst0 =>
              let chosen :=
                if fs_exists fs dst0 && negb (bool_decide (dst0 = src))
                then free_name (S (size (files fs))) os fs src base ext 2
                else Done dst0 in
              match chosen with
              | Done dst =>
                  match os_rename os fs src dst with
                  | Some fs' =>
                      Done (next (mkPage (<[Z.to_nat (cur pg) := dst]> (images pg))
                                         (cur pg) (form pg)), fs')
                  | None => Done (next pg, fs)
                  end
              | Raises => Raises
              | Timeout => Timeout
              end
          end
        else Done (next pg, fs)
    end.

(** The list is empty and nothing is current, or the current index is in
    range. *)
Definition in_bounds (pg : page) : Prop :=
  (images pg = [] /\ cur pg = -1) \/ (0 <= cur pg < Z.of_nat (length (images pg))).

(** The list names distinct files that all exist. *)
Definition in_sync (pg : page) (fs : FS) : Prop :=
  NoDup (images pg) /\ Forall (fun q => is_Some (files fs !! q)) (images pg).

End Manual.

(** A page showing the first of two images, with ["tag"] typed as prefix. *)
Definition sample_page : Manual.page :=
  Manual.mkPage [img_a; img_b] 0
    (Manual.mkFields (py " tag ") [] [] [] false false false false false).

(** ** [core/utils.py]: the remaining helpers *)

Definition IMG_EXTS : list str :=
  [py ".jpg"; py ".jpeg"; py ".png"; py ".bmp"; py ".tif"; py ".tiff"; py ".webp"].

(** [p.suffix.lower() in IMG_EXTS] *)
Definition is_image_path (p : path) : bool :=
  bool_decide (lower (suffix p) ∈ IMG_EXTS).

(** [iter_images]: the image files found in [folder], directly or at any
    depth; the order in which they are yielded is left open. *)
Definition iter_images (fs : FS) (folder : path) (recursive : bool) : gset path :=
  if recursive
  then filter (fun q => strictly_under folder q /\ is_image_path q = true)
              (dom (files fs))
  else filter (fun q => (parent q = folder /\ q <> []) /\ is_image_path q = true)
              (dom (files fs)).





(** ** [core/detector.py]: the box of crop_by_xyxy *)

(** The box [crop_by_xyxy] hands to [image.crop], computed from the four
    coordinates once they are rounded to integers. *)
Definition crop_box (x1 y1 x2 y2 : Z) : Z * Z * Z * Z :=
  let x1 := Z.max 0 x1 in
  let y1 := Z.max 0 y1 in
  let x2 := Z.max (x1 + 1) x2 in
  let y2 := Z.max (y1 + 1) y2 in
  (x1, y1, x2, y2).

(** ** [core/ocr_client.py]: what the back ends return *)

(** The characters at which [str.splitlines] breaks a line. *)
Definition is_linebreak (c : N) : bool :=
  in_range 10 13 c || in_range 28 30 c || (c =? 133) || (c =? 8232) || (c =? 8233).

(** [s.splitlines()]: [cur] is the line being read; a carriage return
    followed by a line feed is one break. *)
Fixpoint splitlines_go (cur s : str) : list str :=
  match s with
  | [] => match cur with [] => [] | _ => [cur] end
  | c :: r =>
      if is_linebreak c then
        match r with
        | d :: r' =>
            if (c =? 13) && (d =? 10) then cur :: splitlines_go [] r'
            else cur :: splitlines_go [] r
        | [] => [cur]
        end
      else splitlines_go (cur ++ [c]) r
  end.

Definition splitlines (s : str) : list str := splitlines_go [] s.

(** [ln.strip()] is not empty. *)
Definition nonblank (ln : str) : bool := truthy (Some (strip is_space ln)).

(** The last non-blank line of the content, or [""]: what both back ends
    make of the content of a reply. *)
Definition last_nonblank_line (content : str) : str :=
  List.last (List.filter nonblank (splitlines (strip is_space content))) [].




(** * Properties *)

(** ** The matcher decides [Matches] *)

Section RegexFacts.

Lemma nullable_spec r : nullable r = true <-> Matches r [].
Proof.
  induction r as [| |q|r1 IH1 r2 IH2|r1 IH1 r2 IH2|r1 IH1]; simpl.
  - split; [discriminate | inversion 1].
  - split; [constructor | reflexivity].
  - split; [discriminate | inversion 1].
  - rewrite andb_true_iff, IH1, IH2. split.
    + intros [H1 H2]. exact (MSeq _ _ [] [] H1 H2).
    + inversion 1 as [| |? ? s1 s2 H1 H2 E1 E2| | | |]; subst.
      apply app_eq_nil in E2 as [-> ->]. auto.
  - rewrite orb_true_iff, IH1, IH2. split.
    + intros [H|H]; [apply MAltL | apply MAltR]; assumption.
    + inversion 1; subst; auto.
  - split; [constructor | reflexivity].
Qed.

(** A non-empty word of [Star r] starts with a non-empty word of [r]. *)
Lemma star_cons r c s :
  Matches (Star r) (c :: s) ->
  exists s1 s2, s = s1 ++ s2 /\ Matches r (c :: s1) /\ Matches (Star r) s2.
Proof.
  intros H. remember (Star r) as r' eqn:Er. remember (c :: s) as w eqn:Ew.
  revert s Ew.
  induction H as [| | | | | |r0 s1 s2 H1 _ H2 IH2]; intros t Ew; try discriminate.
  injection Er as ->.
  destruct s1 as [|d s1]; simpl in Ew.
  - apply IH2; auto.
  - injection Ew as Hd Ht. subst. exists s1, s2. auto.
Qed.

Lemma deriv_spec c r s : Matches (deriv c r) s <-> Matches r (c :: s).
Proof.
  revert s.
  induction r as [| |q|r1 IH1 r2 IH2|r1 IH1 r2 IH2|r1 IH1]; intros s; simpl.
  - split; inversion 1.
  - split; inversion 1.
  - destruct (q c) eqn:Hq; split; inversion 1; subst.
    + constructor; assumption.
    + constructor.
    + congruence.
  - assert (Hseq : Matches (Seq (deriv c r1) r2) s ->
                   Matches (Seq r1 r2) (c :: s)).
    { inversion 1 as [| |? ? s1 s2 H1 H2| | | |]; subst.
      apply IH1 in H1. exact (MSeq _ _ (c :: s1) s2 H1 H2). }
    assert (Hinv : Matches (Seq r1 r2) (c :: s) ->
                   (exists s1 s2, s = s1 ++ s2 /\ Matches r1 (c :: s1) /\ Matches r2 s2)
                   \/ (Matches r1 [] /\ Matches r2 (c :: s))).
    { inversion 1 as [| |? ? s1 s2 H1 H2 E1 E2| | | |]; subst.
      destruct s1 as [|d s1]; simpl in E2.
      - right. subst. auto.
      - injection E2 as Hd Ht. subst. left. eauto. }
    destruct (nullable r1) eqn:Hn.
    + split.
      * inversion 1; subst; [auto|].
        apply nullable_spec in Hn. apply IH2 in H3.
        exact (MSeq _ _ [] (c :: s) Hn H3).
      * intros H. destruct (Hinv H) as [(s1 & s2 & -> & H1 & H2)|[_ H2]].
        -- apply MAltL. constructor; [apply IH1|]; assumption.
        -- apply MAltR. apply IH2. assumption.
    + split; [auto|].
      intros H. destruct (Hinv H) as [(s1 & s2 & -> & H1 & H2)|[H1 _]].
      * constructor; [apply IH1|]; assumption.
      * apply nullable_spec in H1. congruence.
  - split; inversion 1; subst.
    + apply MAltL, IH1. assumption.
    + apply MAltR, IH2. assumption.
    + apply MAltL, IH1. assumption.
    + apply MAltR, IH2. assumption.
  - split.
    + inversion 1 as [| |? ? s1 s2 H1 H2| | | |]; subst.
      apply IH1 in H1. exact (MStarS _ (c :: s1) s2 H1 H2).
    + intros H. destruct (star_cons _ _ _ H) as (s1 & s2 & -> & H1 & H2).
      constructor; [apply IH1|]; assumption.
Qed.

Lemma re_match_spec r s : re_match r s = true <-> Matches r s.
Proof.
  revert r. induction s as [|c s IH]; intros r; simpl.
  - apply nullable_spec.
  - rewrite IH. apply deriv_spec.
Qed.

End RegexFacts.

(** ** Character classes *)

Ltac chars :=
  repeat progress
    unfold out_char, word_up, alnum_up, allowed, disallowed, is_dash, is_space,
      is_upper_az, is_lower_az, is_digit, in_range, upper_char, lower_char,
      dash, underscore in *;
  repeat match goal with
         | |- context [if ?b then _ else _] => destruct b eqn:?
         | H : context [if ?b then _ else _] |- _ => destruct b eqn:?
         end;
  repeat rewrite ?andb_true_iff, ?orb_true_iff, ?negb_true_iff,
    ?andb_false_iff, ?orb_false_iff, ?negb_false_iff,
    ?N.leb_le, ?N.leb_gt, ?N.eqb_eq, ?N.eqb_neq in *;
  lia.

Lemma upper_char_out c : allowed c = true -> out_char (upper_char c) = true.
Proof. intros H. chars. Qed.

Lemma upper_char_dash c : is_dash (upper_char c) = is_dash c.
Proof.
  destruct (is_dash c) eqn:E, (is_dash (upper_char c)) eqn:E'; try reflexivity; chars.
Qed.

Lemma upper_char_id c : out_char c = true -> upper_char c = c.
Proof. intros H. chars. Qed.

Lemma out_char_allowed c : out_char c = true -> allowed c = true.
Proof. intros H. chars. Qed.

Lemma allowed_not_space c : allowed c = true -> is_space c = false.
Proof. intros H. chars. Qed.

Lemma dash_allowed c : is_dash c = true -> allowed c = true.
Proof. intros H. chars. Qed.

(** ** Stripping *)

Section Strip.

Variable p : N -> bool.

Lemma drop_while_suffix s : exists k, s = k ++ drop_while p s.
Proof.
  induction s as [|c s [k IH]]; simpl.
  - exists []. reflexivity.
  - destruct (p c).
    + exists (c :: k). simpl. congruence.
    + exists []. reflexivity.
Qed.

Lemma drop_while_head s :
  match drop_while p s with c :: _ => p c = false | [] => True end.
Proof.
  induction s as [|c s IH]; simpl; [exact I|].
  destruct (p c) eqn:E; [exact IH | exact E].
Qed.

Lemma drop_while_id s :
  match s with c :: _ => p c = false | [] => True end -> drop_while p s = s.
Proof. destruct s as [|c s]; simpl; [reflexivity|]. intros ->. reflexivity. Qed.

Lemma rstrip_prefix s : exists k, s = rstrip p s ++ k.
Proof.
  unfold rstrip. destruct (drop_while_suffix (rev s)) as [k Hk].
  exists (rev k). rewrite <- rev_app_distr, <- Hk, rev_involutive. reflexivity.
Qed.

Lemma rstrip_last s :
  match rev (rstrip p s) with c :: _ => p c = false | [] => True end.
Proof. unfold rstrip. rewrite rev_involutive. apply drop_while_head. Qed.

Lemma rstrip_id s :
  match rev s with c :: _ => p c = false | [] => True end -> rstrip p s = s.
Proof.
  intros H. unfold rstrip. rewrite drop_while_id by exact H. apply rev_involutive.
Qed.

Lemma strip_forallb q s : forallb q s = true -> forallb q (strip p s) = true.
Proof.
  unfold strip, lstrip. intros H.
  destruct (drop_while_suffix s) as [k1 H1].
  destruct (rstrip_prefix (drop_while p s)) as [k2 H2].
  rewrite H1, H2, !forallb_app, !andb_true_iff in H. tauto.
Qed.

End Strip.

(** ** Dashes *)

Lemma no_dash_run_app a b :
  no_dash_run (a ++ b) = true -> no_dash_run a = true /\ no_dash_run b = true.
Proof.
  induction a as [|c a IH]; simpl; [auto|].
  rewrite !andb_true_iff. intros [H1 H2]. destruct (IH H2) as [Ha Hb].
  repeat split; try assumption.
  destruct a; simpl in *; [|assumption].
  destruct (is_dash c); reflexivity.
Qed.

Lemma strip_no_dash_run p s : no_dash_run s = true -> no_dash_run (strip p s) = true.
Proof.
  unfold strip, lstrip. intros H.
  destruct (drop_while_suffix p s) as [k1 H1].
  destruct (rstrip_prefix p (drop_while p s)) as [k2 H2].
  rewrite H1 in H. apply no_dash_run_app in H as [_ H].
  rewrite H2 in H. apply no_dash_run_app in H as [H _]. exact H.
Qed.

Lemma strip_dash_start s : starts_with_dash (strip is_dash s) = false.
Proof.
  unfold strip, lstrip.
  pose proof (drop_while_head is_dash s) as Hh.
  destruct (rstrip_prefix is_dash (drop_while is_dash s)) as [k Hk].
  destruct (rstrip is_dash (drop_while is_dash s)) as [|c r] eqn:E; [reflexivity|].
  rewrite Hk in Hh. exact Hh.
Qed.

Lemma strip_dash_end s : ends_with_dash (strip is_dash s) = false.
Proof.
  unfold ends_with_dash, strip.
  pose proof (rstrip_last is_dash (lstrip is_dash s)) as H.
  destruct (rev (rstrip is_dash (lstrip is_dash s))); [reflexivity | exact H].
Qed.

(** ** The two substitutions *)

Lemma sub_runs_allowed b s : forallb allowed (sub_runs disallowed b s) = true.
Proof.
  revert b. induction s as [|c s IH]; intros b; simpl; [reflexivity|].
  destruct (disallowed c) eqn:E.
  - destruct b; simpl; rewrite ?IH; reflexivity.
  - simpl. rewrite IH. unfold disallowed in E. apply negb_false_iff in E.
    rewrite E. reflexivity.
Qed.

Lemma sub_runs_id b s : forallb allowed s = true -> sub_runs disallowed b s = s.
Proof.
  revert b. induction s as [|c s IH]; intros b; simpl; [reflexivity|].
  rewrite andb_true_iff. intros [Hc Hs]. unfold disallowed at 1. rewrite Hc. simpl.
  rewrite IH by exact Hs. reflexivity.
Qed.

Lemma collapse_forallb q s : forallb q s = true -> forallb q (collapse_dashes s) = true.
Proof.
  induction s as [|c s IH]; simpl; [reflexivity|].
  rewrite andb_true_iff. intros [Hc Hs].
  destruct (is_dash c); [destruct s as [|d s']; [simpl; rewrite Hc; reflexivity|];
                         destruct (is_dash d)|];
    simpl in *; rewrite ?Hc; auto.
Qed.

Lemma collapse_cons c r :
  collapse_dashes (c :: r) =
  if is_dash c then
    match r with
    | d :: _ => if is_dash d then collapse_dashes r else c :: collapse_dashes r
    | [] => [c]
    end
  else c :: collapse_dashes r.
Proof. reflexivity. Qed.

Lemma collapse_start s : starts_with_dash (collapse_dashes s) = starts_with_dash s.
Proof.
  induction s as [|c s IH]; [reflexivity|].
  rewrite collapse_cons. destruct (is_dash c) eqn:Ec.
  - destruct s as [|d s']; [reflexivity|].
    destruct (is_dash d) eqn:Ed; [|reflexivity].
    rewrite IH. simpl. congruence.
  - reflexivity.
Qed.

Lemma no_dash_run_cons c r :
  no_dash_run (c :: r) = negb (is_dash c && starts_with_dash r) && no_dash_run r.
Proof. reflexivity. Qed.

Lemma collapse_no_dash_run s : no_dash_run (collapse_dashes s) = true.
Proof.
  induction s as [|c s IH]; [reflexivity|].
  rewrite collapse_cons. destruct (is_dash c) eqn:Ec.
  - destruct s as [|d s']; [simpl; rewrite Ec; reflexivity|].
    destruct (is_dash d) eqn:Ed; [exact IH|].
    rewrite no_dash_run_cons, IH, collapse_start. simpl. rewrite Ed, Ec. reflexivity.
  - rewrite no_dash_run_cons, IH, Ec. reflexivity.
Qed.

Lemma collapse_id s : no_dash_run s = true -> collapse_dashes s = s.
Proof.
  induction s as [|c s IH]; simpl; [reflexivity|].
  rewrite andb_true_iff, negb_true_iff. intros [Hc Hs].
  rewrite (IH Hs).
  destruct (is_dash c); [|reflexivity].
  destruct s as [|d s']; [reflexivity|]. simpl in Hc. rewrite Hc. reflexivity.
Qed.

(** ** Upper-casing *)

Lemma upper_start s : starts_with_dash (upper s) = starts_with_dash s.
Proof. destruct s; simpl; [reflexivity | apply upper_char_dash]. Qed.

Lemma upper_end s : ends_with_dash (upper s) = ends_with_dash s.
Proof. unfold ends_with_dash, upper. rewrite <- map_rev. apply upper_start. Qed.

Lemma upper_no_dash_run s : no_dash_run (upper s) = no_dash_run s.
Proof.
  induction s as [|c s IH]; simpl; [reflexivity|].
  fold (upper s). rewrite IH, upper_start, upper_char_dash. reflexivity.
Qed.

Lemma upper_out s : forallb allowed s = true -> forallb out_char (upper s) = true.
Proof.
  induction s as [|c s IH]; simpl; [reflexivity|].
  rewrite !andb_true_iff. intros [Hc Hs]. split; [apply upper_char_out; exact Hc | auto].
Qed.

Lemma upper_id s : forallb out_char s = true -> upper s = s.
Proof.
  induction s as [|c s IH]; simpl; [reflexivity|].
  rewrite andb_true_iff. intros [Hc Hs].
  rewrite (upper_char_id _ Hc). fold (upper s). rewrite (IH Hs). reflexivity.
Qed.

(** ** Tokens *)

(** What [sanitize_and_upper] hands to [upper] is over [A-Za-z0-9_-]. *)
Lemma before_upper_allowed s :
  forallb allowed
    (strip is_dash (collapse_dashes (sub_runs disallowed false (strip is_space s)))) = true.
Proof. apply strip_forallb, collapse_forallb, sub_runs_allowed. Qed.

Lemma sanitize_well_formed s : well_formed_token (sanitize_and_upper s).
Proof.
  unfold sanitize_and_upper, well_formed_token.
  rewrite upper_start, upper_end, upper_no_dash_run.
  split; [apply upper_out, before_upper_allowed|].
  split; [apply strip_dash_start|].
  split; [apply strip_dash_end|].
  apply strip_no_dash_run, collapse_no_dash_run.
Qed.

Lemma forallb_head (q : N -> bool) s :
  forallb q s = true -> match s with c :: _ => q c = true | [] => True end.
Proof. destruct s; simpl; [auto|]. rewrite andb_true_iff. tauto. Qed.

Lemma strip_id (q r : N -> bool) s :
  (forall c, r c = true -> q c = false) ->
  forallb r s = true -> strip q s = s.
Proof.
  intros Hqr Hs. unfold strip, lstrip.
  assert (Hhead : forall u, forallb r u = true ->
                            match u with c :: _ => q c = false | [] => True end).
  { intros u Hu. apply forallb_head in Hu. destruct u; auto. }
  rewrite drop_while_id by (apply Hhead; exact Hs).
  apply rstrip_id, Hhead. rewrite forallb_forall in *.
  intros c Hc. apply Hs, in_rev. exact Hc.
Qed.

Lemma sanitize_fixes_tokens t : well_formed_token t -> sanitize_and_upper t = t.
Proof.
  intros (Ha & Hs & He & Hn). unfold sanitize_and_upper.
  assert (Hal : forallb allowed t = true).
  { rewrite forallb_forall in *. intros c Hc. apply out_char_allowed, Ha, Hc. }
  rewrite (strip_id is_space allowed) by (auto using allowed_not_space).
  rewrite sub_runs_id by exact Hal.
  rewrite collapse_id by exact Hn.
  assert (strip is_dash t = t) as ->; [|apply upper_id, Ha].
  unfold strip, lstrip.
  rewrite drop_while_id by (destruct t; [exact I | exact Hs]).
  apply rstrip_id. unfold ends_with_dash in He. destruct (rev t); [exact I | exact He].
Qed.

(** A well-formed token is a word of the expression that admits the
    underscore in first position. *)
Lemma token_tail_matches n : forall s,
  (length s <= n)%nat ->
  forallb out_char s = true -> ends_with_dash s = false -> no_dash_run s = true ->
  Matches (Star (Seq (Opt (Class is_dash)) (Class word_up))) s.
Proof.
  induction n as [|n IH]; intros s Hlen Ha He Hn.
  - destruct s; [constructor | simpl in Hlen; lia].
  - destruct s as [|c s]; [constructor|].
    simpl in Ha, Hn. apply andb_true_iff in Ha as [Hc Ha].
    apply andb_true_iff in Hn as [Hcd Hn].
    assert (Hend : forall a u, ends_with_dash (a :: u) = false ->
                               u <> [] -> ends_with_dash u = false).
    { intros a u H Hu. unfold ends_with_dash in *. simpl in H.
      destruct (rev u) eqn:E; [|exact H].
      apply (f_equal (@rev N)) in E. rewrite rev_involutive in E. contradiction. }
    destruct (is_dash c) eqn:Ec.
    + destruct s as [|d s].
      * unfold ends_with_dash in He. simpl in He. congruence.
      * simpl in Hcd. apply negb_true_iff in Hcd.
        simpl in Ha, Hn. apply andb_true_iff in Ha as [Hd Ha].
        apply andb_true_iff in Hn as [_ Hn].
        assert (Hw : word_up d = true).
        { unfold out_char in Hd. rewrite Hcd, orb_false_r in Hd. exact Hd. }
        change (c :: d :: s) with ([c; d] ++ s). apply MStarS.
        -- change [c; d] with ([c] ++ [d]). apply MSeq.
           ++ apply MAltR. constructor. exact Ec.
           ++ constructor. exact Hw.
        -- destruct s as [|e s]; [constructor|].
           apply IH; try assumption; [simpl in *; lia|].
           apply (Hend d); [|discriminate]. apply (Hend c); [exact He | discriminate].
    + assert (Hw : word_up c = true).
      { unfold out_char in Hc. rewrite Ec, orb_false_r in Hc. exact Hc. }
      change (c :: s) with ([c] ++ s). apply MStarS.
      * change [c] with ([] ++ [c]). apply MSeq; [apply MAltL; constructor|].
        constructor. exact Hw.
      * destruct s as [|e s]; [constructor|].
        apply IH; try assumption; [simpl in *; lia|].
        apply (Hend c); [exact He | discriminate].
Qed.

Lemma token_matches t :
  well_formed_token t -> t = [] \/ Matches token_re_us t.
Proof.
  intros (Ha & Hs & He & Hn). destruct t as [|c t]; [left; reflexivity | right].
  simpl in Ha, Hs, Hn. apply andb_true_iff in Ha as [Hc Ha].
  apply andb_true_iff in Hn as [_ Hn].
  assert (Hw : word_up c = true).
  { unfold out_char in Hc. rewrite Hs, orb_false_r in Hc. exact Hc. }
  change (c :: t) with ([c] ++ t). apply MSeq; [constructor; exact Hw|].
  destruct t as [|d t]; [constructor|].
  apply (token_tail_matches (length (d :: t))); auto.
  unfold ends_with_dash in *. simpl in *.
  destruct (rev t ++ [d]) eqn:E; [destruct (rev t); discriminate|].
  simpl in He. exact He.
Qed.

(** ** Decimal numerals and candidate stems *)

Lemma py_inj a b : py a = py b -> a = b.
Proof.
  unfold py. intros H.
  assert (Hl : list_ascii_of_string a = list_ascii_of_string b).
  { revert H. generalize (list_ascii_of_string a) (list_ascii_of_string b).
    induction l as [|x l IH]; intros [|y l']; simpl; try discriminate; [reflexivity|].
    intros H. injection H as Hx Hl.
    f_equal; [|apply IH; exact Hl].
    rewrite <- (ascii_N_embedding x), <- (ascii_N_embedding y), Hx. reflexivity. }
  rewrite <- (string_of_list_ascii_of_string a), <- (string_of_list_ascii_of_string b), Hl.
  reflexivity.
Qed.

Lemma str_of_nat_inj m n : str_of_nat m = str_of_nat n -> m = n.
Proof. intros H. apply py_inj in H. exact (pretty_nat_inj _ _ H). Qed.

Lemma stem_of_inj base m n : stem_of base m = stem_of base n -> m = n.
Proof.
  unfold stem_of. intros H.
  apply app_inv_head in H. apply app_inv_head in H. apply str_of_nat_inj, H.
Qed.

(** ** The search of [plan_name] *)

Section Search.

Variable base : str.
Variable existing : gset str.

Lemma plan_search_sound fuel idx st :
  plan_search fuel base idx existing = Some st ->
  exists n, (idx <= n < idx + fuel)%nat /\ st = stem_of base n /\ (st ∉ existing)
            /\ forall m, (idx <= m < n)%nat -> stem_of base m ∈ existing.
Proof.
  revert idx. induction fuel as [|k IH]; intros idx; simpl; [discriminate|].
  destruct (decide (stem_of base idx ∉ existing)) as [Hfree|Hused].
  - intros [= <-]. exists idx.
    split; [lia|]. split; [reflexivity|]. split; [exact Hfree|].
    intros m Hm. lia.
  - intros H. destruct (IH _ H) as (n & Hn & -> & Hfree & Hbelow).
    exists n. split; [lia|]. split; [reflexivity|]. split; [exact Hfree|].
    intros m Hm. destruct (decide (m = idx)) as [->|Hne].
    + destruct (decide (stem_of base idx ∈ existing)); [assumption | contradiction].
    + apply Hbelow. lia.
Qed.

Lemma plan_search_finds fuel idx n :
  (idx <= n < idx + fuel)%nat -> stem_of base n ∉ existing ->
  is_Some (plan_search fuel base idx existing).
Proof.
  revert idx. induction fuel as [|k IH]; intros idx Hn Hfree; [lia|]. simpl.
  destruct (decide (stem_of base idx ∉ existing)); [eauto|].
  apply IH; [|exact Hfree].
  destruct (decide (n = idx)) as [->|]; [contradiction | lia].
Qed.

(** Of [size existing + 1] consecutive candidates one is free. *)
Lemma free_candidate idx :
  exists n, (idx <= n < idx + S (size existing))%nat /\ (stem_of base n ∉ existing).
Proof.
  set (k := size existing).
  destruct (decide (Forall (fun n => stem_of base n ∈ existing) (seq idx (S k))))
    as [Hall|Hsome].
  - exfalso.
    set (X := list_to_set (stem_of base <$> seq idx (S k)) : gset str).
    assert (Hsub : X ⊆ existing).
    { intros st Hst. unfold X in Hst. apply elem_of_list_to_set in Hst.
      apply list_elem_of_fmap in Hst as (n & -> & Hn).
      rewrite Forall_forall in Hall. apply Hall. exact Hn. }
    assert (Hsize : size X = S k).
    { unfold X. rewrite size_list_to_set.
      - rewrite length_fmap, length_seq. reflexivity.
      - apply NoDup_fmap_2; [intros a b; apply stem_of_inj | apply NoDup_seq]. }
    apply subseteq_size in Hsub. unfold k in *. lia.
  - apply not_Forall_Exists in Hsome; [|intros n; apply _].
    apply Exists_exists in Hsome as (n & Hin & Hfree).
    apply elem_of_seq in Hin. exists n. split; [lia | exact Hfree].
Qed.

Lemma plan_search_total :
  is_Some (plan_search (S (size existing)) base 1 existing).
Proof.
  destruct (free_candidate 1) as (n & Hn & Hfree).
  exact (plan_search_finds _ _ n Hn Hfree).
Qed.

Lemma plan_search_more_fuel fuel fuel' idx st :
  plan_search fuel base idx existing = Some st -> (fuel <= fuel')%nat ->
  plan_search fuel' base idx existing = Some st.
Proof.
  revert fuel' idx. induction fuel as [|k IH]; intros fuel' idx; simpl; [discriminate|].
  intros H Hle. destruct fuel' as [|k']; [lia|]. simpl.
  destruct (decide (stem_of base idx ∉ existing)); [exact H|].
  apply IH; [exact H | lia].
Qed.

End Search.

(** What a call with duplicates enabled does, in one statement. *)
Lemma plan_name_dup base ext existing :
  exists n, (1 <= n)%nat
    /\ plan_name base ext existing true
       = Some (stem_of (sanitize_and_upper base) n ++ lower ext,
               {[stem_of (sanitize_and_upper base) n]} ∪ existing)
    /\ (stem_of (sanitize_and_upper base) n ∉ existing)
    /\ forall m, (1 <= m < n)%nat -> stem_of (sanitize_and_upper base) m ∈ existing.
Proof.
  unfold plan_name. cbn [negb].
  destruct (plan_search_total (sanitize_and_upper base) existing) as [st Hst].
  destruct (plan_search_sound _ _ _ _ _ Hst) as (n & Hn & -> & Hfree & Hbelow).
  exists n. rewrite Hst.
  split; [lia|]. split; [reflexivity|]. split; [exact Hfree|].
  intros m Hm. apply Hbelow. lia.
Qed.

Lemma plan_name_total base ext existing duplicates :
  is_Some (plan_name base ext existing duplicates).
Proof.
  destruct duplicates.
  - destruct (plan_name_dup base ext existing) as (n & _ & -> & _). eauto.
  - unfold plan_name. cbn [negb]. eauto.
Qed.

Lemma strip_ext_app st ext : strip_ext (st ++ lower ext) ext = st.
Proof.
  unfold strip_ext. rewrite length_app.
  replace (length st + length (lower ext) - length (lower ext))%nat with (length st) by lia.
  apply take_app_length.
Qed.

(** Calls that share one index: every stem handed out is new. *)
Lemma plan_all_stems calls : forall existing names final,
  plan_all calls existing = Some (names, final) ->
  length names = length calls
  /\ NoDup (zip_with strip_ext names (snd <$> calls))
  /\ (forall st, st ∈ zip_with strip_ext names (snd <$> calls) -> st ∉ existing)
  /\ existing ⊆ final.
Proof.
  induction calls as [|[base ext] calls IH]; intros existing names final; simpl.
  - intros [= <- <-]. repeat split; [constructor | | reflexivity].
    intros st Hst. inversion Hst.
  - destruct (plan_name_dup base ext existing) as (n & _ & -> & Hfree & _).
    destruct (plan_all calls _) as [[names' final']|] eqn:Hrest; [|discriminate].
    intros [= <- <-]. destruct (IH _ _ _ Hrest) as (Hlen & Hnd & Hnew & Hsub).
    simpl. rewrite strip_ext_app.
    split; [congruence|]. split; [|split].
    + constructor; [|exact Hnd]. intros Hin. apply Hnew in Hin.
      apply Hin, elem_of_union_l, elem_of_singleton. reflexivity.
    + intros st Hst. apply elem_of_cons in Hst as [->|Hst]; [exact Hfree|].
      apply Hnew in Hst. intros Hin. apply Hst, elem_of_union_r, Hin.
    + intros st Hst. apply Hsub, elem_of_union_r, Hst.
Qed.

Lemma plan_all_total calls : forall existing, is_Some (plan_all calls existing).
Proof.
  induction calls as [|[base ext] calls IH]; intros existing; simpl; [eauto|].
  destruct (plan_name_dup base ext existing) as (n & _ & -> & _).
  destruct (IH ({[stem_of (sanitize_and_upper base) n]} ∪ existing)) as [[names final] ->].
  eauto.
Qed.

(** * The claims *)

(** C3, as stated, fails: the input ["_"] is returned as ["_"], which is
    not empty and is not a word of [^[A-Z0-9](-?[A-Z0-9_])*$], although
    it satisfies the three conditions of the component contract. *)
Lemma sanitize_underscore_not_token_re :
  ~ (sanitize_and_upper (py "_") = []
     \/ Matches token_re (sanitize_and_upper (py "_")))
  /\ well_formed_token (sanitize_and_upper (py "_")).
Proof.
  split; [|apply sanitize_well_formed].
  intros [H|H]; [discriminate H|].
  apply re_match_spec in H. vm_compute in H. discriminate H.
Qed.

(** C3, amended: for every input, the output of [sanitize_and_upper] is
    empty or a word of [^[A-Z0-9_](-?[A-Z0-9_])*$] (the first character
    may be an underscore); it contains only characters of [A-Z0-9-_],
    neither starts nor ends with ["-"], and has no two neighbouring
    dashes. *)
Theorem sanitize_output_shape (s : str) :
  (sanitize_and_upper s = [] \/ Matches token_re_us (sanitize_and_upper s))
  /\ forallb out_char (sanitize_and_upper s) = true
  /\ starts_with_dash (sanitize_and_upper s) = false
  /\ ends_with_dash (sanitize_and_upper s) = false
  /\ no_dash_run (sanitize_and_upper s) = true.
Proof.
  split; [apply token_matches, sanitize_well_formed | apply sanitize_well_formed].
Qed.

(** C9: [sanitize_and_upper] is idempotent. *)
Theorem sanitize_idempotent (x : str) :
  sanitize_and_upper (sanitize_and_upper x) = sanitize_and_upper x.
Proof. apply sanitize_fixes_tokens, sanitize_well_formed. Qed.

Lemma ends_differ (a : str) : [84; 65; 71; 45; 49; 46; 112; 110; 103] <> a ++ py ".PNG".
Proof.
  intros H. apply (f_equal (@rev N)) in H. rewrite rev_app_distr in H.
  vm_compute in H. discriminate H.
Qed.

Lemma ends_differ' (a : str) : [84; 65; 71; 46; 112; 110; 103] <> a ++ py ".PNG".
Proof.
  intros H. apply (f_equal (@rev N)) in H. rewrite rev_app_distr in H.
  vm_compute in H. discriminate H.
Qed.

(** C5, as stated, fails: with the extension [".PNG"] the name returned
    ends in [".png"], so it is not [S + "-" + n + ext] for any [n]. *)
Lemma plan_name_dup_upper_ext :
  ~ exists n, fst <$> plan_name (py "TAG") (py ".PNG") ∅ true
              = Some (sanitize_and_upper (py "TAG") ++ py "-" ++ str_of_nat n ++ py ".PNG").
Proof.
  intros [n H].
  assert (E : fst <$> plan_name (py "TAG") (py ".PNG") ∅ true
              = Some [84; 65; 71; 45; 49; 46; 112; 110; 103]) by (vm_compute; reflexivity).
  rewrite E in H. apply (inj Some) in H. rewrite !app_assoc in H.
  exact (ends_differ _ H).
Qed.

(** C5, amended: with duplicates enabled, [plan_name base ext index]
    returns [S + "-" + n + lower(ext)], where [S] is the sanitized base,
    the extension is lower-cased, and [n] is the least of 1, 2, 3, ...
    whose stem [S + "-" + n] is absent from the index; the index it
    leaves is the old one with that stem added.  On the empty index
    ["TAG"], [".png"] gives ["TAG-1.png"], and a second call on the index
    left by the first gives ["TAG-2.png"]. *)
Theorem plan_name_numbered (base ext : str) (existing : gset str) :
  (exists n, (1 <= n)%nat
     /\ plan_name base ext existing true
        = Some (sanitize_and_upper base ++ py "-" ++ str_of_nat n ++ lower ext,
                {[sanitize_and_upper base ++ py "-" ++ str_of_nat n]} ∪ existing)
     /\ (sanitize_and_upper base ++ py "-" ++ str_of_nat n ∉ existing)
     /\ forall m, (1 <= m < n)%nat ->
                  sanitize_and_upper base ++ py "-" ++ str_of_nat m ∈ existing)
  /\ plan_name (py "TAG") (py ".png") ∅ true
     = Some (py "TAG-1.png", {[py "TAG-1"]} ∪ ∅)
  /\ plan_name (py "TAG") (py ".png") ({[py "TAG-1"]} ∪ ∅) true
     = Some (py "TAG-2.png", {[py "TAG-2"]} ∪ ({[py "TAG-1"]} ∪ ∅)).
Proof.
  split; [|split; vm_compute; reflexivity].
  destruct (plan_name_dup base ext existing) as (n & Hn & Heq & Hfree & Hbelow).
  exists n. unfold stem_of in *. rewrite <- !app_assoc in Heq.
  split; [exact Hn|]. split; [exact Heq|]. split; [exact Hfree | exact Hbelow].
Qed.

(** C6: for every sequence of [plan_name] calls that share one index, all
    with duplicates enabled and with any mix of bases, the calls all
    return, and the stems of the returned names (each name without the
    extension it was given) are pairwise distinct. *)
Theorem plan_names_distinct (calls : list (str * str)) (existing : gset str) :
  exists names final,
    plan_all calls existing = Some (names, final)
    /\ length names = length calls
    /\ NoDup (zip_with strip_ext names (snd <$> calls)).
Proof.
  destruct (plan_all_total calls existing) as [[names final] H].
  exists names, final. split; [exact H|].
  destruct (plan_all_stems _ _ _ _ H) as (Hlen & Hnd & _). auto.
Qed.

(** C7, as stated, fails: with the extension [".PNG"] the name returned
    is ["TAG.png"], not the base followed by the extension as given. *)
Lemma plan_name_plain_upper_ext :
  fst <$> plan_name (py "TAG") (py ".PNG") ∅ false
  <> Some (sanitize_and_upper (py "TAG") ++ py ".PNG").
Proof.
  assert (E : fst <$> plan_name (py "TAG") (py ".PNG") ∅ false
              = Some [84; 65; 71; 46; 112; 110; 103]) by (vm_compute; reflexivity).
  rewrite E. intros H. apply (inj Some) in H. exact (ends_differ' _ H).
Qed.

(** C7, amended: with duplicates disabled, [plan_name base ext index]
    returns the sanitized base followed by the lower-cased extension,
    whatever the index holds, and leaves the index as it was; for
    ["TAG"] and [".png"] the name is ["TAG.png"] on every index. *)
Theorem plan_name_plain (base ext : str) (existing : gset str) :
  plan_name base ext existing false
  = Some (sanitize_and_upper base ++ lower ext, existing)
  /\ plan_name (py "TAG") (py ".png") existing false = Some (py "TAG.png", existing).
Proof. split; reflexivity. Qed.

(** ** The two-phase rename *)

Lemma os_rename_counts os fs src dst fs' :
  os_rename os fs src dst = Some fs' -> renames fs' = S (renames fs).
Proof.
  unfold os_rename. intros H.
  repeat match type of H with
         | context [if ?b then _ else _] => destruct b
         | context [match ?o with Some _ => _ | None => _ end] => destruct o
         end; try discriminate; injection H as <-; reflexivity.
Qed.

(** Every entry that reaches stage 2 is counted, as a success or as a
    failure. *)
Lemma stage2_counts os tmp_map : forall ok fail fs,
  let '((ok', fail'), _) := stage2 os tmp_map ok fail fs in
  (ok' + fail' = ok + fail + length tmp_map)%nat.
Proof.
  induction tmp_map as [|[tmp dst] rest IH]; intros ok fail fs; simpl; [lia|].
  destruct (fs_exists fs dst).
  - specialize (IH ok (S fail) (rollback os fs tmp dst)).
    destruct (stage2 os rest ok (S fail) _) as [[ok' fail'] fs']. lia.
  - destruct (os_rename os fs tmp dst) as [fs1|].
    + specialize (IH (S ok) fail fs1).
      destruct (stage2 os rest (S ok) fail fs1) as [[ok' fail'] fs']. lia.
    + specialize (IH ok (S fail) fs).
      destruct (stage2 os rest ok (S fail) fs) as [[ok' fail'] fs']. lia.
Qed.

(** A swap goes through on either platform. *)
Lemma swap_batch os :
  let r := two_phase_rename os hex_token [(img_a, img_b); (img_b, img_a)] disk_ab in
  r.1 = Some (2, 0)%nat
  /\ files r.2 = <[img_b := Blob 1]> (<[img_a := Blob 2]> ∅).
Proof. destruct os; vm_compute; split; reflexivity. Qed.

(** On Windows the rollback of the second pair raises and its file stays
    under its quarantine name. *)
Lemma shared_destination_windows :
  let r := two_phase_rename Windows hex_token [(img_a, dest_x); (img_b, dest_x)] disk_ab in
  r.1 = Some (1, 1)%nat
  /\ files r.2 !! dest_x = Some (Blob 1)
  /\ files r.2 !! [py "photos"; quarantine_name (hex_token 1) (py "b.png")] = Some (Blob 2).
Proof. vm_compute. repeat split; reflexivity. Qed.

(** C1: on a POSIX system the batch [[(A,X),(B,X)]] loses the content of
    [A].  The first pair is committed to [X]; the second finds [X] taken
    and is rolled back, but the rollback name is computed from the
    destination, so the quarantined [B] is renamed onto [X] and replaces
    it.  One success and one failure are counted, and afterwards the
    store holds a single file, [X], with the content of [B]. *)
Theorem shared_destination_posix_loses_a_file :
  let r := two_phase_rename Posix hex_token [(img_a, dest_x); (img_b, dest_x)] disk_ab in
  files disk_ab !! img_a = Some (Blob 1)
  /\ files disk_ab !! img_b = Some (Blob 2)
  /\ r.1 = Some (1, 1)%nat
  /\ map_to_list (files r.2) = [(dest_x, Blob 2)].
Proof. vm_compute. repeat split; reflexivity. Qed.

(** C2: a source that exists but whose stage-1 rename raises is counted
    nowhere: the call returns [(0, 0)] and leaves the store as it was. *)
Theorem stage1_failure_not_counted (os : platform) :
  fs_exists disk_a_denied img_a = true
  /\ os_rename os disk_a_denied img_a
       [py "photos"; quarantine_name (hex_token 0) (py "a.png")] = None
  /\ two_phase_rename os hex_token [(img_a, dest_x)] disk_a_denied
     = (Some (0, 0)%nat, disk_a_denied).
Proof. destruct os; vm_compute; repeat split; reflexivity. Qed.

(** ** What holds of the two-phase rename on every batch *)

(** On Windows a rename never replaces a file, so it keeps every content. *)
Lemma os_rename_windows_contents fs src dst fs' :
  os_rename Windows fs src dst = Some fs' -> contents fs' ≡ₚ contents fs.
Proof.
  unfold os_rename, contents.
  destruct (bool_decide _); [discriminate|].
  destruct (files fs !! src) as [c|] eqn:Hsrc; [|discriminate].
  destruct (bool_decide (src = dst)) eqn:Heq; [intros [= <-]; reflexivity|].
  apply bool_decide_eq_false in Heq.
  unfold fs_exists. destruct (bool_decide (is_Some (files fs !! dst))) eqn:Hdst;
    [discriminate|].
  apply bool_decide_eq_false in Hdst. rewrite <- eq_None_not_Some in Hdst.
  intros [= <-]. cbn [files].
  rewrite map_to_list_insert by (rewrite lookup_delete_ne by exact Heq; exact Hdst).
  rewrite <- (map_to_list_delete (files fs) src c Hsrc). reflexivity.
Qed.

Lemma rollback_windows_contents fs tmp dst :
  contents (rollback Windows fs tmp dst) ≡ₚ contents fs.
Proof.
  unfold rollback. destruct (with_name _ _ _) as [orig|]; [|reflexivity].
  destruct (os_rename Windows fs tmp orig) as [fs'|] eqn:H; [|reflexivity].
  exact (os_rename_windows_contents _ _ _ _ H).
Qed.

Lemma stage1_windows_contents uuid pairs : forall k tmp_map fs,
  contents (stage1 Windows uuid k pairs tmp_map fs).2 ≡ₚ contents fs.
Proof.
  induction pairs as [|[src dst] rest IH]; intros k tmp_map fs; simpl; [reflexivity|].
  destruct (fs_exists fs src); simpl; [|apply IH].
  destruct (with_name _ _ _) as [tmp|]; [|reflexivity].
  destruct (os_rename Windows fs src tmp) as [fs'|] eqn:H; [|apply IH].
  rewrite IH. exact (os_rename_windows_contents _ _ _ _ H).
Qed.

Lemma stage2_windows_contents tmp_map : forall ok fail fs,
  contents (stage2 Windows tmp_map ok fail fs).2 ≡ₚ contents fs.
Proof.
  induction tmp_map as [|[tmp dst] rest IH]; intros ok fail fs; simpl; [reflexivity|].
  destruct (fs_exists fs dst).
  - rewrite IH. apply rollback_windows_contents.
  - destruct (os_rename Windows fs tmp dst) as [fs'|] eqn:H; [|apply IH].
    rewrite IH. exact (os_rename_windows_contents _ _ _ _ H).
Qed.

(** On Windows no batch loses a file: the store holds the same contents
    after the call as before it. *)
Lemma two_phase_rename_windows_keeps_contents uuid pairs fs :
  contents (two_phase_rename Windows uuid pairs fs).2 ≡ₚ contents fs.
Proof.
  unfold two_phase_rename.
  pose proof (stage1_windows_contents uuid pairs 0 [] fs) as H1.
  destruct (stage1 Windows uuid 0 pairs [] fs) as [[tmp_map|] fs1]; [|exact H1].
  pose proof (stage2_windows_contents tmp_map 0 0 fs1) as H2.
  destruct (stage2 Windows tmp_map 0 0 fs1) as [counts fs2].
  simpl in *. rewrite H2. exact H1.
Qed.


(** ** The run *)

Lemma safe_clean_dir_renames fs target :
  renames (safe_clean_dir fs target) = renames fs.
Proof. reflexivity. Qed.

Lemma save_crop_renames p im fs : renames (save_crop p im fs) = renames fs.
Proof.
  unfold save_crop. destruct (crop_dir p); [|reflexivity].
  destruct (_ && _); reflexivity.
Qed.

Lemma process_image_renames p env im st :
  renames (disk (after (process_image p env im st))) = renames (disk st).
Proof.
  unfold process_image.
  destruct (bool_decide (sub_out_of p im ∉ cleaned_subdirs st));
    [destruct (clean_out p)|]; cbv zeta iota beta;
    (destruct (opens im); [|reflexivity]); cbn [negb];
    (destruct (detect im) as [[]|]; [|reflexivity|reflexivity]);
    (destruct (_ || _); [simpl; rewrite save_crop_renames; reflexivity|]);
    (destruct (plan_name _ _ _ _) as [[final index]|]);
    simpl; rewrite save_crop_renames; reflexivity.
Qed.

Lemma process_all_renames p env images : forall st,
  renames (disk (after (process_all p env images st))) = renames (disk st).
Proof.
  induction images as [|im images IH]; intros st; simpl; [reflexivity|].
  destruct (cancel_seen im); [reflexivity|].
  pose proof (process_image_renames p env im st) as H.
  destruct (process_image p env im st) as [st'|st']; simpl in *; [|exact H].
  rewrite IH. exact H.
Qed.

Lemma write_mapping_csv_renames fs path rows fs' :
  write_mapping_csv fs path rows = Some fs' -> renames fs' = renames fs.
Proof.
  unfold write_mapping_csv. destruct (bool_decide _); [discriminate|].
  intros [= <-]. reflexivity.
Qed.

(** C4, as stated, fails: a run that finds no image returns before the
    ledger is written, so that afterwards there is no ledger file. *)
Lemma empty_run_writes_no_ledger :
  let r := run Posix hex_token sample_params None true [] (mkFS ∅ ∅ 0) in
  ~ (code r = 0%nat /\ total (stats r) = 0%nat
     /\ files (final_disk r) !! (joinpath (input_dir sample_params) (py "rename_mapping.csv"))
        = Some (Table [LEDGER_HEADER])).
Proof. vm_compute. intros (_ & _ & H). discriminate H. Qed.

(** C4, amended: a run over an input directory with zero qualifying
    images, once the detector is loaded and the directory listed,
    finishes with code 0 and [total = 0] (and zero planned, renamed and
    failed) and leaves the store as it found it: it returns before the
    ledger is written, so no ledger file is created or overwritten. *)
Theorem empty_run_report (os : platform) (uuid : nat -> str) (p : TaskParams)
  (env : option str) (fs : FS) :
  run os uuid p env true [] fs = mkReport 0 (mkStats 0 0 0 0) fs.
Proof. reflexivity. Qed.

(** C8: in a dry run, whatever the images and however many renames were
    planned, both counters reported are zero and no rename has taken
    effect between the start of the run and its end. *)
Theorem dry_run_renames_nothing (os : platform) (uuid : nat -> str) (p : TaskParams)
  (env : option str) (setup_ok : bool) (images : list image) (fs : FS)
  (Hdry : dry_run p = true) :
  renamed_ok (stats (run os uuid p env setup_ok images fs)) = 0%nat
  /\ renamed_fail (stats (run os uuid p env setup_ok images fs)) = 0%nat
  /\ renames (final_disk (run os uuid p env setup_ok images fs)) = renames fs
  /\ forall pairs fs', perform_batch_rename os uuid pairs (dry_run p) fs'
                       = (Some (0, 0)%nat, fs').
Proof.
  split; [|split; [|split]].
  4: { intros pairs fs'. rewrite Hdry. reflexivity. }
  all: unfold run; destruct setup_ok; [|reflexivity]; cbn [negb];
    destruct (length images =? 0)%nat; [reflexivity|];
    pose proof (process_all_renames p env images (mkLoop ∅ ∅ [] [] fs)) as Hloop;
    destruct (process_all p env images _) as [st|st]; cbn [after disk] in Hloop;
    [|try reflexivity; exact Hloop];
    destruct (write_mapping_csv _ _ _) as [fs1|] eqn:Hcsv;
    [|try reflexivity; exact Hloop];
    rewrite Hdry; cbn [perform_batch_rename];
    try reflexivity.
  cbn [final_disk]. rewrite (write_mapping_csv_renames _ _ _ _ Hcsv). exact Hloop.
Qed.

Lemma dry_run_renames_nothing_witness :
  dry_run sample_params = true
  /\ planned (stats (run Posix hex_token sample_params None true [sample_image] disk_ab)) = 1%nat
  /\ renamed_ok (stats (run Posix hex_token sample_params None true [sample_image] disk_ab)) = 0%nat
  /\ renamed_fail (stats (run Posix hex_token sample_params None true [sample_image] disk_ab)) = 0%nat
  /\ renames (final_disk (run Posix hex_token sample_params None true [sample_image] disk_ab))
     = renames disk_ab
  /\ forall pairs fs', perform_batch_rename Posix hex_token pairs (dry_run sample_params) fs'
                       = (Some (0, 0)%nat, fs').
Proof.
  split; [reflexivity|]. split; [vm_compute; reflexivity|].
  apply (dry_run_renames_nothing Posix hex_token sample_params None true [sample_image] disk_ab).
  reflexivity.
Defined.

Lemma ocr_without_key cfg env sdk rest :
  truthy (py_or (api_key cfg) env) = false -> ocr cfg env sdk rest = py "UNKNOWN".
Proof. unfold ocr. intros ->. reflexivity. Qed.

(** C10: without an API key [OCRClient.ocr] answers ["UNKNOWN"]; that
    answer is neither empty nor marked as an error; and every image that
    is read, has a box of the target class and gets the answer
    ["UNKNOWN"] from the OCR call ends its round with a [PLANNED] row
    whose base is ["UNKNOWN"] and with its rename queued. *)
Theorem unknown_is_planned (p : TaskParams) (env : option str) (im : image)
  (st : loop_state)
  (Hopen : opens im = true) (Hdet : detect im = Some true)
  (Hocr : ocr (mkArk (ark_model_name p) (Some (ark_key p)) DEFAULT_ARK_BASE_URL) env
              (sdk_answer im) (rest_answer im) = py "UNKNOWN") :
  (forall cfg env' sdk rest,
      truthy (api_key cfg) = false -> truthy env' = false ->
      ocr cfg env' sdk rest = py "UNKNOWN")
  /\ (truthy (Some (py "UNKNOWN")) = true
      /\ startswith OCR_ERROR_MARK (py "UNKNOWN") = false)
  /\ exists final st',
        process_image p env im st = Next st'
        /\ rows st' = rows st ++ [ledger_row im (py "UNKNOWN") (py "UNKNOWN") final
                                             (py "PLANNED")]
        /\ plan_pairs st' = plan_pairs st
                            ++ [(img_path im, joinpath (sub_out_of p im) final)].
Proof.
  split; [|split; [split; reflexivity|]].
  { intros cfg env' sdk rest Hcfg Henv. apply ocr_without_key.
    unfold py_or. rewrite Hcfg. exact Henv. }
  unfold process_image.
  destruct (bool_decide (sub_out_of p im ∉ cleaned_subdirs st));
    [destruct (clean_out p)|]; cbv zeta iota beta;
    rewrite Hopen, Hdet, Hocr; cbn [negb];
    change (negb (truthy (Some (py "UNKNOWN")))
            || startswith OCR_ERROR_MARK (py "UNKNOWN")) with false;
    change (sanitize_and_upper (py "UNKNOWN")) with (py "UNKNOWN");
    cbv iota;
    match goal with
    | |- context [plan_name ?b ?e ?x ?d] =>
        destruct (plan_name_total b e x d) as [[final index] ->]
    end;
    eexists final, _; (split; [reflexivity|]); split; reflexivity.
Qed.

Lemma unknown_is_planned_witness :
  opens sample_image = true
  /\ detect sample_image = Some true
  /\ rows (after (process_image sample_params None sample_image (empty_loop disk_ab)))
     = [[py "photos"; py "a.png"; py "UNKNOWN"; py "UNKNOWN"; py "UNKNOWN-1.png"; py "PLANNED"]]
  /\ exists final st',
        process_image sample_params None sample_image (empty_loop disk_ab) = Next st'
        /\ rows st' = rows (empty_loop disk_ab)
                      ++ [ledger_row sample_image (py "UNKNOWN") (py "UNKNOWN") final
                                     (py "PLANNED")]
        /\ plan_pairs st' = plan_pairs (empty_loop disk_ab)
                            ++ [(img_path sample_image,
                                 joinpath (sub_out_of sample_params sample_image) final)].
Proof.
  split; [reflexivity|]. split; [reflexivity|]. split; [vm_compute; reflexivity|].
  apply (unknown_is_planned sample_params None sample_image (empty_loop disk_ab));
    reflexivity.
Defined.

(** * Further properties *)

(** ** The sanitizer *)

Lemma drop_while_split p s :
  exists k, s = k ++ drop_while p s /\ forallb p k = true.
Proof.
  induction s as [|c s (k & IH & Hk)]; simpl.
  - exists []. split; reflexivity.
  - destruct (p c) eqn:E.
    + exists (c :: k). simpl. rewrite E, Hk. split; [congruence | reflexivity].
    + exists []. split; reflexivity.
Qed.

Lemma rstrip_split p s :
  exists k, s = rstrip p s ++ k /\ forallb p k = true.
Proof.
  unfold rstrip. destruct (drop_while_split p (rev s)) as (k & Hk & Hp).
  exists (rev k). split.
  - rewrite <- rev_app_distr, <- Hk, rev_involutive. reflexivity.
  - rewrite forallb_forall in *. intros c Hc. apply Hp, in_rev, Hc.
Qed.

Lemma strip_split p s :
  exists k1 k2, s = k1 ++ strip p s ++ k2
                /\ forallb p k1 = true /\ forallb p k2 = true.
Proof.
  unfold strip, lstrip.
  destruct (drop_while_split p s) as (k1 & H1 & Hp1).
  destruct (rstrip_split p (drop_while p s)) as (k2 & H2 & Hp2).
  exists k1, k2. rewrite <- H2. auto.
Qed.

Lemma filter_none (q : N -> bool) k :
  forallb (fun c => negb (q c)) k = true -> List.filter q k = [].
Proof.
  induction k as [|c k IH]; simpl; [reflexivity|].
  rewrite andb_true_iff, negb_true_iff. intros [-> Hk]. auto.
Qed.

Lemma forallb_impl (q r : N -> bool) k :
  (forall c, q c = true -> r c = true) -> forallb q k = true -> forallb r k = true.
Proof. rewrite !forallb_forall. auto. Qed.

Lemma strip_keeps_words p s :
  (forall c, p c = true -> is_word c = false) ->
  List.filter is_word (strip p s) = List.filter is_word s.
Proof.
  intros Hp. destruct (strip_split p s) as (k1 & k2 & Hs & H1 & H2).
  assert (Hnone : forall k, forallb p k = true -> List.filter is_word k = []).
  { intros k Hk. apply filter_none. revert Hk. apply forallb_impl.
    intros c Hc. rewrite (Hp c Hc). reflexivity. }
  rewrite Hs at 2. rewrite !List.filter_app, (Hnone k1 H1), (Hnone k2 H2), app_nil_r.
  reflexivity.
Qed.

Lemma space_not_word c : is_space c = true -> is_word c = false.
Proof.
  intros H. unfold is_word. destruct (allowed c) eqn:E; [|reflexivity].
  rewrite (allowed_not_space c E) in H. discriminate.
Qed.

Lemma dash_not_word c : is_dash c = true -> is_word c = false.
Proof. intros H. unfold is_word. rewrite H, andb_false_r. reflexivity. Qed.

Lemma sub_runs_keeps_words b s :
  List.filter is_word (sub_runs disallowed b s) = List.filter is_word s.
Proof.
  revert b. induction s as [|c s IH]; intros b; simpl; [reflexivity|].
  destruct (disallowed c) eqn:E.
  - assert (Hc : is_word c = false).
    { unfold is_word. unfold disallowed in E. apply negb_true_iff in E.
      rewrite E. reflexivity. }
    rewrite Hc. destruct b; simpl; rewrite ?IH; reflexivity.
  - simpl. rewrite IH. reflexivity.
Qed.

Lemma collapse_keeps_words s :
  List.filter is_word (collapse_dashes s) = List.filter is_word s.
Proof.
  induction s as [|c s IH]; [reflexivity|].
  rewrite collapse_cons. destruct (is_dash c) eqn:Ec.
  - cbn [List.filter]. rewrite (dash_not_word c Ec).
    destruct s as [|d s']; [simpl; rewrite (dash_not_word c Ec); reflexivity|].
    destruct (is_dash d); [exact IH|].
    cbn [List.filter]. rewrite (dash_not_word c Ec). exact IH.
  - cbn [List.filter]. rewrite IH. reflexivity.
Qed.

Lemma upper_char_word c : is_word (upper_char c) = is_word c.
Proof.
  destruct (is_word c) eqn:E, (is_word (upper_char c)) eqn:E'; try reflexivity;
    unfold is_word in *; chars.
Qed.

Lemma upper_keeps_words s :
  List.filter is_word (upper s) = upper (List.filter is_word s).
Proof.
  induction s as [|c s IH]; simpl; [reflexivity|].
  rewrite upper_char_word. fold (upper s). rewrite IH.
  destruct (is_word c); reflexivity.
Qed.

Lemma sanitize_words s :
  List.filter is_word (sanitize_and_upper s) = upper (List.filter is_word s)
  /\ forallb (fun c => is_word c || is_dash c) (sanitize_and_upper s) = true.
Proof.
  split.
  - unfold sanitize_and_upper.
    rewrite upper_keeps_words, (strip_keeps_words is_dash) by apply dash_not_word.
    rewrite collapse_keeps_words, sub_runs_keeps_words.
    rewrite (strip_keeps_words is_space) by apply space_not_word. reflexivity.
  - destruct (sanitize_well_formed s) as [H _]. revert H. apply forallb_impl.
    intros c Hc. unfold is_word. chars.
Qed.

(** X2: the letters, digits and underscores of the input all reach the
    output, in their order and upper-cased; nothing else does, except
    dashes. *)
Theorem sanitize_keeps_words (s : str) :
  List.filter is_word (sanitize_and_upper s) = upper (List.filter is_word s)
  /\ forallb (fun c => is_word c || is_dash c) (sanitize_and_upper s) = true.
Proof. apply sanitize_words. Qed.

(** X1: the strings [sanitize_and_upper] leaves unchanged are exactly
    those over [A-Z0-9-_] that neither start nor end with a dash and
    have no two dashes in a row. *)
Theorem sanitize_fixed_points (t : str) :
  sanitize_and_upper t = t <-> well_formed_token t.
Proof.
  split; [intros <-; apply sanitize_well_formed | apply sanitize_fixes_tokens].
Qed.

Lemma all_dashes_no_start t :
  forallb is_dash t = true -> starts_with_dash t = false -> t = [].
Proof.
  destruct t as [|c t]; [reflexivity|]. simpl. rewrite andb_true_iff.
  intros [Hc _] Hs. congruence.
Qed.

Lemma sanitize_empty s :
  sanitize_and_upper s = [] <-> forallb (fun c => negb (is_word c)) s = true.
Proof.
  destruct (sanitize_words s) as [Hw Hall]. split.
  - intros H. rewrite H in Hw. simpl in Hw.
    destruct (List.filter is_word s) as [|c r] eqn:E; [|discriminate Hw].
    rewrite forallb_forall. intros c Hc. apply negb_true_iff.
    destruct (is_word c) eqn:Ec; [|reflexivity].
    assert (Hin : In c (List.filter is_word s)) by (apply filter_In; auto).
    rewrite E in Hin. destruct Hin.
  - intros H. apply filter_none in H. rewrite H in Hw. simpl in Hw.
    destruct (sanitize_well_formed s) as (_ & Hs & _).
    apply all_dashes_no_start; [|exact Hs].
    rewrite forallb_forall in *. intros c Hc.
    specialize (Hall c Hc). destruct (is_word c) eqn:Ec; [|exact Hall].
    assert (Hin : In c (List.filter is_word (sanitize_and_upper s)))
      by (apply filter_In; auto).
    rewrite Hw in Hin. destruct Hin.
Qed.

(** X3: the output is empty exactly when the input holds no letter, digit
    or underscore. *)
Theorem sanitize_empty_iff (s : str) :
  sanitize_and_upper s = [] <-> forallb (fun c => negb (is_word c)) s = true.
Proof. apply sanitize_empty. Qed.

Lemma sub_runs_length bad b s : (length (sub_runs bad b s) <= length s)%nat.
Proof.
  revert b. induction s as [|c s IH]; intros b; simpl; [lia|].
  destruct (bad c); [destruct b|]; simpl;
    [specialize (IH true) | specialize (IH true) | specialize (IH false)]; lia.
Qed.

Lemma collapse_length s : (length (collapse_dashes s) <= length s)%nat.
Proof.
  induction s as [|c s IH]; [reflexivity|].
  rewrite collapse_cons.
  destruct (is_dash c); [destruct s as [|d s']; [simpl; lia|]; destruct (is_dash d)|];
    simpl in *; lia.
Qed.

Lemma strip_length p s : (length (strip p s) <= length s)%nat.
Proof.
  destruct (strip_split p s) as (k1 & k2 & Hs & _).
  rewrite Hs at 2. rewrite !length_app. lia.
Qed.

(** X4: sanitizing never lengthens a string. *)
Theorem sanitize_length (s : str) :
  (length (sanitize_and_upper s) <= length s)%nat.
Proof.
  unfold sanitize_and_upper, upper. rewrite length_map.
  pose proof (strip_length is_dash
                (collapse_dashes (sub_runs disallowed false (strip is_space s)))).
  pose proof (collapse_length (sub_runs disallowed false (strip is_space s))).
  pose proof (sub_runs_length disallowed false (strip is_space s)).
  pose proof (strip_length is_space s). lia.
Qed.

(** ** Names and paths *)

Lemma name_joinpath d n : name (joinpath d n) = n.
Proof. apply last_last. Qed.

Lemma parent_joinpath d n : parent (joinpath d n) = d.
Proof. apply removelast_last. Qed.

Lemma rfind_none c e : forallb (fun x => negb (x =? c)) e = true -> rfind c e = None.
Proof.
  induction e as [|x e IH]; simpl; [reflexivity|].
  rewrite andb_true_iff, negb_true_iff. intros [Hx He]. rewrite (IH He), Hx.
  reflexivity.
Qed.

Lemma rfind_last c a e :
  forallb (fun x => negb (x =? c)) e = true ->
  rfind c (a ++ c :: e) = Some (length a).
Proof.
  intros He. induction a as [|x a IH]; simpl.
  - rewrite (rfind_none c e He), N.eqb_refl. reflexivity.
  - rewrite IH. reflexivity.
Qed.

Lemma rfind_split c s i :
  rfind c s = Some i ->
  exists a e, s = a ++ c :: e /\ length a = i
              /\ forallb (fun x => negb (x =? c)) e = true.
Proof.
  revert i. induction s as [|x s IH]; intros i; simpl; [discriminate|].
  destruct (rfind c s) as [j|] eqn:E.
  - intros [= <-]. destruct (IH j eq_refl) as (a & e & -> & <- & He).
    exists (x :: a), e. auto.
  - destruct (x =? c) eqn:Ex; [|discriminate]. intros [= <-].
    apply N.eqb_eq in Ex as ->. exists [], s. repeat split.
    clear IH. induction s as [|y s IH]; simpl in *; [reflexivity|].
    destruct (rfind c s); [discriminate|].
    destruct (y =? c); [discriminate|]. simpl. auto.
Qed.

Lemma suffix_at_last a e :
  a <> [] -> e <> [] -> forallb (fun x => negb (x =? 46)) e = true ->
  suffix_at (a ++ 46 :: e) = Some (length a).
Proof.
  intros Ha He Hdots. unfold suffix_at. rewrite (rfind_last 46 a e Hdots).
  rewrite length_app. simpl.
  destruct a; [contradiction|]. destruct e; [contradiction|]. simpl.
  replace (_ <? _)%nat with true; [reflexivity|].
  symmetry. apply Nat.ltb_lt. lia.
Qed.

Lemma suffix_form_inv e :
  is_suffix_form e = true ->
  exists r, e = 46 :: r /\ r <> [] /\ forallb (fun x => negb (x =? 46)) r = true.
Proof.
  destruct e as [|c [|d r]]; simpl; try discriminate.
  rewrite andb_true_iff, N.eqb_eq. intros [-> H].
  exists (d :: r). repeat split; [discriminate | exact H].
Qed.

(** A stem followed by an extension splits back into the two. *)
Lemma stem_suffix_join folder st e :
  st <> [] -> is_suffix_form e = true ->
  stem (joinpath folder (st ++ e)) = st /\ suffix (joinpath folder (st ++ e)) = e.
Proof.
  intros Hst He. destruct (suffix_form_inv e He) as (r & -> & Hr & Hdots).
  unfold stem, suffix. rewrite name_joinpath, (suffix_at_last st r Hst Hr Hdots).
  split; [apply take_app_length | apply drop_app_length].
Qed.

(** What [Path.suffix] returns is empty or has the form of an extension. *)
Lemma suffix_is_form p : suffix p = [] \/ is_suffix_form (suffix p) = true.
Proof.
  unfold suffix, suffix_at.
  destruct (rfind 46 (name p)) as [i|] eqn:E; [|left; reflexivity].
  destruct (_ && _) eqn:Hi; [|left; reflexivity]. right.
  destruct (rfind_split _ _ _ E) as (a & e & Hn & <- & He).
  rewrite Hn, drop_app_length.
  apply andb_true_iff in Hi as [_ Hi]. apply Nat.ltb_lt in Hi.
  rewrite Hn, length_app in Hi. simpl in Hi.
  destruct e as [|d e]; [simpl in Hi; lia|].
  unfold is_suffix_form. rewrite N.eqb_refl. exact He.
Qed.

Lemma lower_char_dot c : (lower_char c =? 46) = (c =? 46).
Proof.
  destruct (c =? 46) eqn:E, (lower_char c =? 46) eqn:E'; try reflexivity; chars.
Qed.

Lemma lower_suffix_form e : is_suffix_form (lower e) = is_suffix_form e.
Proof.
  assert (Hall : forall r, forallb (fun c => negb (c =? 46)) (lower r)
                           = forallb (fun c => negb (c =? 46)) r).
  { induction r as [|c r IH]; simpl; [reflexivity|].
    fold (lower r). rewrite IH, lower_char_dot. reflexivity. }
  destruct e as [|c [|d r]]; simpl; try reflexivity.
  fold (lower r). specialize (Hall (d :: r)). simpl in Hall. fold (lower r) in Hall.
  rewrite Hall, lower_char_dot. reflexivity.
Qed.

(** ** The planner *)

Lemma pretty_N_char_digit x : is_digit (N_of_ascii (pretty_N_char x)) = true.
Proof. unfold pretty_N_char. repeat case_match; reflexivity. Qed.

Lemma pretty_N_go_digits x : forall s,
  forallb is_digit (py s) = true -> forallb is_digit (py (pretty_N_go x s)) = true.
Proof.
  induction (N.lt_wf_0 x) as [x _ IH]. intros s Hs.
  assert (x = 0 \/ 0 < x)%N as [->|Hx] by lia.
  - rewrite pretty_N_go_0. exact Hs.
  - rewrite pretty_N_go_step by exact Hx. apply IH.
    + apply N.div_lt; [exact Hx | reflexivity].
    + change (is_digit (N_of_ascii (pretty_N_char (x `mod` 10)))
              && forallb is_digit (py s) = true).
      rewrite pretty_N_char_digit. exact Hs.
Qed.

Lemma str_of_nat_digits n : forallb is_digit (str_of_nat n) = true.
Proof.
  unfold str_of_nat, pretty, pretty_nat, pretty, pretty_N.
  destruct (decide (N.of_nat n = 0)); [reflexivity|].
  apply pretty_N_go_digits. reflexivity.
Qed.

Lemma str_of_nat_nonempty n : str_of_nat n <> [].
Proof.
  intros H. assert (E : str_of_nat n = py "") by exact H.
  apply py_inj in E. unfold pretty, pretty_nat, pretty, pretty_N in E.
  destruct (decide (N.of_nat n = 0)); [discriminate|].
  assert (Hlen : forall x s, (String.length s <= String.length (pretty_N_go x s))%nat).
  { intros x. induction (N.lt_wf_0 x) as [x _ IH]. intros s.
    assert (x = 0 \/ 0 < x)%N as [->|Hx] by lia; [rewrite pretty_N_go_0; lia|].
    rewrite pretty_N_go_step by exact Hx.
    etransitivity; [|apply IH, N.div_lt; [exact Hx | reflexivity]]. simpl. lia. }
  assert (0 < N.of_nat n)%N as Hpos by lia.
  rewrite pretty_N_go_step in E by exact Hpos.
  specialize (Hlen (N.of_nat n `div` 10)%N
                (String (pretty_N_char (N.of_nat n `mod` 10)) "")).
  rewrite E in Hlen. simpl in Hlen. lia.
Qed.

(** A candidate stem over a sanitized base is non-empty, is in upper
    case and holds no dot. *)
Lemma stem_of_shape base n :
  forallb out_char base = true ->
  stem_of base n <> [] /\ forallb out_char (stem_of base n) = true.
Proof.
  intros Hb. unfold stem_of. split.
  - intros H. apply app_eq_nil in H as [_ H]. discriminate H.
  - rewrite !forallb_app, Hb. simpl.
    apply (forallb_impl is_digit); [|apply str_of_nat_digits].
    intros c Hc. chars.
Qed.

(** X5: [plan_name] sanitizes its base itself, so handing it a base that
    is already sanitized, as the run does, changes nothing. *)
Theorem plan_name_sanitized_base (base ext : str) (existing : gset str)
  (duplicates : bool) :
  plan_name (sanitize_and_upper base) ext existing duplicates
  = plan_name base ext existing duplicates.
Proof.
  unfold plan_name.
  rewrite (sanitize_fixes_tokens _ (sanitize_well_formed base)). reflexivity.
Qed.

(** The call is settled by the first free number. *)
Lemma plan_name_at base ext existing n :
  (1 <= n)%nat ->
  stem_of (sanitize_and_upper base) n ∉ existing ->
  (forall m, (1 <= m < n)%nat -> stem_of (sanitize_and_upper base) m ∈ existing) ->
  plan_name base ext existing true
  = Some (stem_of (sanitize_and_upper base) n ++ lower ext,
          {[stem_of (sanitize_and_upper base) n]} ∪ existing).
Proof.
  intros Hn Hfree Hbelow.
  destruct (plan_name_dup base ext existing) as (k & Hk & -> & Hkfree & Hkbelow).
  assert (k = n) as ->; [|reflexivity].
  destruct (Nat.lt_trichotomy k n) as [Hlt|[->|Hgt]]; [|reflexivity|].
  - exfalso. apply Hkfree, Hbelow. lia.
  - exfalso. apply Hfree, Hkbelow. lia.
Qed.

(** X6: numbers only go up.  If a call for some base was given the number
    [n1], every later call for the same base on the same index, whatever
    was planned in between, is given a number greater than [n1]. *)
Theorem plan_name_numbers_increase (base ext ext' : str) (existing later : gset str)
  (n1 : nat) (index1 : gset str)
  (Hfirst : plan_name base ext existing true
            = Some (stem_of (sanitize_and_upper base) n1 ++ lower ext, index1))
  (Hgrow : index1 ⊆ later) :
  exists n2, (n1 < n2)%nat
    /\ plan_name base ext' later true
       = Some (stem_of (sanitize_and_upper base) n2 ++ lower ext',
               {[stem_of (sanitize_and_upper base) n2]} ∪ later).
Proof.
  destruct (plan_name_dup base ext existing) as (k & Hk & Heq & Hkfree & Hkbelow).
  rewrite Heq in Hfirst. injection Hfirst as Hname Hidx.
  apply app_inv_tail, stem_of_inj in Hname. subst k index1.
  destruct (plan_name_dup base ext' later) as (n2 & Hn2 & Heq2 & Hfree2 & _).
  exists n2. split; [|exact Heq2].
  destruct (Nat.lt_ge_cases n1 n2) as [Hlt|Hge]; [exact Hlt | exfalso].
  apply Hfree2, Hgrow.
  destruct (Nat.eq_dec n2 n1) as [->|Hne].
  - apply elem_of_union_l, elem_of_singleton. reflexivity.
  - apply elem_of_union_r, Hkbelow. lia.
Qed.

Lemma plan_name_numbers_increase_witness :
  exists n2, (1 < n2)%nat
    /\ plan_name (py "tag") (py ".jpg") ({[py "TAG-1"]} ∪ ∅) true
       = Some (stem_of (sanitize_and_upper (py "tag")) n2 ++ lower (py ".jpg"),
               {[stem_of (sanitize_and_upper (py "tag")) n2]} ∪ ({[py "TAG-1"]} ∪ ∅)).
Proof.
  apply (plan_name_numbers_increase (py "tag") (py ".png") (py ".jpg") ∅
           ({[py "TAG-1"]} ∪ ∅) 1 ({[py "TAG-1"]} ∪ ∅)).
  - vm_compute. reflexivity.
  - reflexivity.
Defined.

(** Calls for one base from the number [j] on. *)
Lemma plan_all_run base ext k : forall j existing,
  (1 <= j)%nat ->
  (forall m, (1 <= m < j)%nat -> stem_of (sanitize_and_upper base) m ∈ existing) ->
  (forall n, (j <= n)%nat -> stem_of (sanitize_and_upper base) n ∉ existing) ->
  exists final,
    plan_all (repeat (base, ext) k) existing
    = Some (map (fun i => stem_of (sanitize_and_upper base) i ++ lower ext) (seq j k),
            final).
Proof.
  induction k as [|k IH]; intros j existing Hj Hbelow Hfree; simpl; [eauto|].
  rewrite (plan_name_at base ext existing j Hj (Hfree j (Nat.le_refl j)) Hbelow).
  destruct (IH (S j) ({[stem_of (sanitize_and_upper base) j]} ∪ existing))
    as [final ->]; [lia | | | eauto].
  - intros m Hm. destruct (Nat.eq_dec m j) as [->|Hne].
    + apply elem_of_union_l, elem_of_singleton. reflexivity.
    + apply elem_of_union_r, Hbelow. lia.
  - intros n Hn Hin. apply elem_of_union in Hin as [Hin|Hin].
    + apply elem_of_singleton, stem_of_inj in Hin. lia.
    + apply (Hfree n); [lia | exact Hin].
Qed.

(** X7: on an index that holds no stem of the base yet, [k] calls in a
    row for that base return the names numbered 1, 2, ..., [k], in this
    order. *)
Theorem plan_name_counts_from_one (base ext : str) (existing : gset str) (k : nat)
  (Hnew : forall n, stem_of (sanitize_and_upper base) n ∉ existing) :
  exists final,
    plan_all (repeat (base, ext) k) existing
    = Some (map (fun i => sanitize_and_upper base ++ py "-" ++ str_of_nat i ++ lower ext)
                (seq 1 k),
            final).
Proof.
  destruct (plan_all_run base ext k 1 existing) as [final H]; [lia | | auto |].
  - intros m Hm. lia.
  - exists final. rewrite H. f_equal. f_equal. apply map_ext.
    intros i. unfold stem_of. rewrite <- !app_assoc. reflexivity.
Qed.

Lemma plan_name_counts_from_one_witness :
  exists final,
    plan_all (repeat (py "tag 7", py ".PNG") 3) ∅
    = Some (map (fun i => sanitize_and_upper (py "tag 7") ++ py "-" ++ str_of_nat i
                          ++ lower (py ".PNG")) (seq 1 3), final).
Proof.
  apply (plan_name_counts_from_one (py "tag 7") (py ".PNG") ∅ 3).
  intros n. apply not_elem_of_empty.
Defined.

Lemma planned_name_parts base ext existing folder final index :
  is_suffix_form ext = true ->
  plan_name base ext existing true = Some (final, index) ->
  suffix (joinpath folder final) = lower ext
  /\ stem (joinpath folder final) ++ lower ext = final
  /\ index = {[stem (joinpath folder final)]} ∪ existing
  /\ (stem (joinpath folder final) ∉ existing)
  /\ upper (stem (joinpath folder final)) = stem (joinpath folder final).
Proof.
  intros Hext Hplan.
  destruct (plan_name_dup base ext existing) as (n & _ & Heq & Hfree & _).
  rewrite Heq in Hplan. injection Hplan as <- <-.
  destruct (sanitize_well_formed base) as [Hout _].
  destruct (stem_of_shape _ n Hout) as [Hne Hup].
  rewrite <- lower_suffix_form in Hext.
  destruct (stem_suffix_join folder _ _ Hne Hext) as [-> ->].
  repeat split; auto. apply upper_id, Hup.
Qed.

(** X8: with duplicates enabled and an extension of the form
    [Path.suffix] returns, the name planned splits back, as a file name
    in any folder, into the stem that was reserved in the index and the
    lower-cased extension. *)
Theorem planned_name_splits (base ext : str) (existing : gset str) (folder : path)
  (final : str) (index : gset str)
  (Hext : is_suffix_form ext = true)
  (Hplan : plan_name base ext existing true = Some (final, index)) :
  suffix (joinpath folder final) = lower ext
  /\ stem (joinpath folder final) ++ lower ext = final
  /\ index = {[stem (joinpath folder final)]} ∪ existing
  /\ stem (joinpath folder final) ∉ existing.
Proof.
  destruct (planned_name_parts base ext existing folder final index Hext Hplan)
    as (H1 & H2 & H3 & H4 & _). auto.
Qed.

Lemma planned_name_splits_witness :
  suffix (joinpath [py "out"] (py "TAG-1.png")) = lower (py ".PNG")
  /\ stem (joinpath [py "out"] (py "TAG-1.png")) ++ lower (py ".PNG") = py "TAG-1.png"
  /\ {[py "TAG-1"]} ∪ ∅ = {[stem (joinpath [py "out"] (py "TAG-1.png"))]} ∪ (∅ : gset str)
  /\ stem (joinpath [py "out"] (py "TAG-1.png")) ∉ (∅ : gset str).
Proof.
  apply (planned_name_splits (py "tag") (py ".PNG") ∅ [py "out"] (py "TAG-1.png")
           ({[py "TAG-1"]} ∪ ∅)).
  - reflexivity.
  - vm_compute. reflexivity.
Defined.




(** ** The two-phase rename on batches that cannot interfere *)

Lemma clean_moves_step m D a b r c :
  clean_moves m D ((a, b) :: r) -> m !! a = Some c ->
  a <> b /\ clean_moves (<[b := c]> (delete a m)) D r.
Proof.
  intros (Hs & Ht & Hall) Ha. simpl in Hs, Ht.
  apply NoDup_cons in Hs as [Has Hs]. apply NoDup_cons in Ht as [Hbt Ht].
  apply Forall_cons in Hall as [(_ & Hb & _) Hall]. simpl in Hb.
  assert (Hab : a <> b) by (intros ->; congruence).
  split; [exact Hab|]. split; [exact Hs|]. split; [exact Ht|].
  apply Forall_forall. intros [a' b'] Hin.
  rewrite Forall_forall in Hall. destruct (Hall _ Hin) as ([c' Ha'] & Hb' & Hd).
  simpl in *.
  assert (a' <> a).
  { intros ->. apply Has. apply list_elem_of_fmap. exists (a, b'). auto. }
  assert (b' <> b).
  { intros ->. apply Hbt. apply list_elem_of_fmap. exists (a', b). auto. }
  assert (a' <> b) by (intros ->; congruence).
  split; [|split; [|exact Hd]].
  - exists c'. rewrite lookup_insert_ne, lookup_delete_ne by auto. exact Ha'.
  - rewrite lookup_insert_ne by auto.
    destruct (decide (a = b')) as [->|]; [apply lookup_delete_eq|].
    rewrite lookup_delete_ne by auto. exact Hb'.
Qed.

Lemma move_all_spec D moves : forall m,
  clean_moves m D moves ->
  (forall a b, (a, b) ∈ moves -> move_all m moves !! b = m !! a)
  /\ (forall q, q ∈ moves.*1 -> move_all m moves !! q = None)
  /\ (forall q, q ∉ moves.*1 -> q ∉ moves.*2 -> move_all m moves !! q = m !! q).
Proof.
  induction moves as [|[a b] r IH]; intros m Hclean.
  - split; [|split].
    + intros a b H. inversion H.
    + intros q H. inversion H.
    + reflexivity.
  - pose proof Hclean as (Hs & Ht & Hall).
    simpl in Hs, Ht. apply NoDup_cons in Hs as [Has _]. apply NoDup_cons in Ht as [Hbt _].
    apply Forall_cons in Hall as [([c Ha] & Hb & _) Hall]. simpl in Ha, Hb.
    destruct (clean_moves_step m D a b r c Hclean Ha) as [Hab Hclean'].
    destruct (IH _ Hclean') as (IH1 & IH2 & IH3).
    rewrite Forall_forall in Hall.
    assert (Hb1 : b ∉ r.*1).
    { intros Hin. apply list_elem_of_fmap in Hin as ([a' b'] & -> & Hin).
      destruct (Hall _ Hin) as ([? Hx] & _). simpl in *. congruence. }
    assert (Ha2 : a ∉ r.*2).
    { intros Hin. apply list_elem_of_fmap in Hin as ([a' b'] & -> & Hin).
      destruct (Hall _ Hin) as (_ & Hx & _). simpl in *. congruence. }
    simpl. rewrite Ha. split; [|split].
    + intros a' b' Hin. apply elem_of_cons in Hin as [[= -> ->]|Hin].
      * rewrite IH3 by assumption. rewrite lookup_insert_eq. symmetry. exact Ha.
      * rewrite (IH1 _ _ Hin).
        assert (a' <> a).
        { intros ->. apply Has. apply list_elem_of_fmap. exists (a, b'). auto. }
        assert (a' <> b).
        { intros ->. destruct (Hall _ Hin) as ([? Hx] & _). simpl in Hx. congruence. }
        rewrite lookup_insert_ne, lookup_delete_ne by auto. reflexivity.
    + intros q Hq. apply elem_of_cons in Hq as [->|Hq]; [|apply IH2, Hq].
      rewrite IH3 by assumption.
      rewrite lookup_insert_ne by auto. apply lookup_delete_eq.
    + intros q Hq1 Hq2.
      apply not_elem_of_cons in Hq1 as [? Hq1]. apply not_elem_of_cons in Hq2 as [? Hq2].
      rewrite IH3 by assumption.
      rewrite lookup_insert_ne, lookup_delete_ne by auto. reflexivity.
Qed.

Lemma os_rename_clean os fs a b c :
  files fs !! a = Some c -> files fs !! b = None -> a ∉ denied fs -> b ∉ denied fs ->
  os_rename os fs a b
  = Some (mkFS (<[b := c]> (delete a (files fs))) (denied fs) (S (renames fs))).
Proof.
  intros Ha Hb Hda Hdb. unfold os_rename.
  rewrite bool_decide_eq_false_2 by tauto. rewrite Ha.
  rewrite bool_decide_eq_false_2 by (intros ->; congruence).
  unfold fs_exists. rewrite bool_decide_eq_false_2; [reflexivity|].
  rewrite Hb. intros [? H]. discriminate H.
Qed.

Lemma stage2_clean os moves : forall ok fail fs,
  clean_moves (files fs) (denied fs) moves ->
  stage2 os moves ok fail fs
  = ((ok + length moves, fail)%nat,
     mkFS (move_all (files fs) moves) (denied fs) (renames fs + length moves)).
Proof.
  induction moves as [|[t d] r IH]; intros ok fail fs Hclean; simpl.
  - rewrite !Nat.add_0_r. destruct fs. reflexivity.
  - pose proof Hclean as (_ & _ & Hall).
    apply Forall_cons in Hall as [([c Ht] & Hd & Hdt & Hdd) _]. simpl in *.
    destruct (clean_moves_step _ _ _ _ _ _ Hclean Ht) as [_ Hclean'].
    unfold fs_exists at 1. rewrite bool_decide_eq_false_2
      by (rewrite Hd; intros [? H]; discriminate H).
    rewrite (os_rename_clean os fs t d c Ht Hd Hdt Hdd), Ht.
    rewrite IH by exact Hclean'. cbn [files denied renames].
    rewrite !Nat.add_succ_r. reflexivity.
Qed.

Lemma dict_set_fresh d k v : k ∉ d.*1 -> dict_set d k v = d ++ [(k, v)].
Proof.
  induction d as [|[k' v'] d IH]; simpl; [reflexivity|].
  intros H. apply not_elem_of_cons in H as [Hne H].
  rewrite bool_decide_eq_false_2 by exact Hne. rewrite IH by exact H. reflexivity.
Qed.

Lemma quarantine_paths_length os uuid srcs : forall k tmps,
  quarantine_paths os uuid k srcs = Some tmps -> length tmps = length srcs.
Proof.
  induction srcs as [|s r IH]; intros k tmps; simpl.
  - intros [= <-]. reflexivity.
  - destruct (with_name _ _ _); [|discriminate].
    destruct (quarantine_paths os uuid (S k) r) as [ts|] eqn:E; [|discriminate].
    intros [= <-]. simpl. rewrite (IH _ _ E). reflexivity.
Qed.

Lemma stage1_clean os uuid pairs : forall k tmp_map fs tmps,
  quarantine_paths os uuid k pairs.*1 = Some tmps ->
  clean_moves (files fs) (denied fs) (zip pairs.*1 tmps) ->
  Forall (fun t => t ∉ tmp_map.*1) tmps ->
  stage1 os uuid k pairs tmp_map fs
  = (Some (tmp_map ++ zip tmps pairs.*2),
     mkFS (move_all (files fs) (zip pairs.*1 tmps)) (denied fs)
          (renames fs + length pairs)).
Proof.
  induction pairs as [|[s d] r IH]; intros k tmp_map fs tmps Hq Hclean Hkeys.
  - simpl in *. injection Hq as <-. simpl.
    rewrite app_nil_r, Nat.add_0_r. destruct fs. reflexivity.
  - change (match with_name os s (quarantine_name (uuid k) (name s)),
                  quarantine_paths os uuid (S k) r.*1 with
            | Some t, Some ts => Some (t :: ts)
            | _, _ => None
            end = Some tmps) in Hq.
    destruct (with_name os s _) as [t|] eqn:Ht; [|discriminate].
    destruct (quarantine_paths os uuid (S k) r.*1) as [ts|] eqn:Hts; [|discriminate].
    injection Hq as <-.
    assert (Hlen : (length ts <= length r.*1)%nat)
      by (rewrite (quarantine_paths_length _ _ _ _ _ Hts); reflexivity).
    change (zip ((s, d) :: r).*1 (t :: ts)) with ((s, t) :: zip r.*1 ts) in *.
    pose proof Hclean as (_ & Hnd & Hall).
    apply Forall_cons in Hall as [([c Hs] & Hta & Hds & Hdt) _]. simpl in *.
    destruct (clean_moves_step _ _ _ _ _ _ Hclean Hs) as [_ Hclean'].
    apply NoDup_cons in Hnd as [Hnt _]. rewrite snd_zip in Hnt by exact Hlen.
    apply Forall_cons in Hkeys as [Hk Hkeys].
    unfold fs_exists. rewrite bool_decide_eq_true_2 by eauto. cbn [negb].
    rewrite Ht, (os_rename_clean os fs s t c Hs Hta Hds Hdt), Hs.
    rewrite dict_set_fresh by exact Hk.
    rewrite (IH (S k) _ _ ts Hts); cbn [files denied renames].
    + rewrite <- app_assoc, !Nat.add_succ_r. reflexivity.
    + exact Hclean'.
    + apply Forall_forall. intros t' Hin. rewrite Forall_forall in Hkeys.
      rewrite fmap_app. intros H. apply elem_of_app in H as [H|H].
      * exact (Hkeys _ Hin H).
      * apply list_elem_of_singleton in H. simpl in H. subst t'. contradiction.
Qed.

Lemma zip_partner_l {A B} (l : list A) (k : list B) y :
  length l = length k -> y ∈ k -> exists x, (x, y) ∈ zip l k.
Proof.
  intros Hlen Hy. apply list_elem_of_lookup in Hy as [i Hi].
  destruct (lookup_lt_is_Some_2 l i) as [x Hx].
  { rewrite Hlen. eapply lookup_lt_Some, Hi. }
  exists x. apply (list_elem_of_lookup_2 _ i), lookup_zip_Some. auto.
Qed.

Lemma zip_through (pairs : list (path * path)) (tmps : list path) s d :
  length tmps = length pairs -> (s, d) ∈ pairs ->
  exists t, (s, t) ∈ zip pairs.*1 tmps /\ (t, d) ∈ zip tmps pairs.*2.
Proof.
  intros Hlen Hin. apply list_elem_of_lookup in Hin as [i Hi].
  destruct (lookup_lt_is_Some_2 tmps i) as [t Ht].
  { rewrite Hlen. eapply lookup_lt_Some, Hi. }
  exists t. split; apply (list_elem_of_lookup_2 _ i), lookup_zip_Some;
    rewrite list_lookup_fmap, Hi; auto.
Qed.

(** X14: a batch whose sources are distinct existing files, whose
    destinations are distinct and each either free or itself a source of
    the batch, and whose quarantine names are new, goes through whole on
    either platform: every pair is counted as a success, each
    destination ends with the content its source had, the sources that
    are not destinations are gone, and every other path is as before. *)
Theorem two_phase_rename_clean_batch (os : platform) (uuid : nat -> str)
  (pairs : list (path * path)) (fs : FS) (tmps : list path)
  (Hquar : quarantine_paths os uuid 0 pairs.*1 = Some tmps)
  (Hsrcs : NoDup pairs.*1) (Hdsts : NoDup pairs.*2) (Htmps : NoDup tmps)
  (Hpresent : Forall (fun s => is_Some (files fs !! s)) pairs.*1)
  (Hfresh : Forall (fun t => files fs !! t = None /\ t ∉ pairs.*2) tmps)
  (Hfree : Forall (fun d => files fs !! d = None \/ d ∈ pairs.*1) pairs.*2)
  (Hperm : denied fs = ∅) :
  exists fs',
    two_phase_rename os uuid pairs fs = (Some (length pairs, 0)%nat, fs')
    /\ (forall s d, (s, d) ∈ pairs -> files fs' !! d = files fs !! s)
    /\ (forall q, q ∉ pairs.*2 -> q ∈ pairs.*1 -> files fs' !! q = None)
    /\ (forall q, q ∉ pairs.*2 -> q ∉ pairs.*1 -> files fs' !! q = files fs !! q)
    /\ renames fs' = (renames fs + 2 * length pairs)%nat.
Proof.
  pose proof (quarantine_paths_length _ _ _ _ _ Hquar) as Hlen.
  rewrite length_fmap in Hlen.
  rewrite Forall_forall in Hpresent, Hfresh, Hfree.
  assert (Hz1 : (zip pairs.*1 tmps).*1 = pairs.*1)
    by (apply fst_zip; rewrite length_fmap; lia).
  assert (Hz2 : (zip pairs.*1 tmps).*2 = tmps)
    by (apply snd_zip; rewrite length_fmap; lia).
  assert (Hz3 : (zip tmps pairs.*2).*1 = tmps)
    by (apply fst_zip; rewrite length_fmap; lia).
  assert (Hz4 : (zip tmps pairs.*2).*2 = pairs.*2)
    by (apply snd_zip; rewrite length_fmap; lia).
  assert (Hclean1 : clean_moves (files fs) (denied fs) (zip pairs.*1 tmps)).
  { split; [rewrite Hz1; exact Hsrcs|]. split; [rewrite Hz2; exact Htmps|].
    apply Forall_forall. intros [s t] Hin. rewrite Hperm. simpl.
    split; [apply Hpresent; eapply elem_of_zip_l, Hin|].
    split; [apply Hfresh; eapply elem_of_zip_r, Hin|].
    split; apply not_elem_of_empty. }
  destruct (move_all_spec _ _ _ Hclean1) as (M1a & M1b & M1c).
  rewrite Hz1, Hz2 in *.
  set (m1 := move_all (files fs) (zip pairs.*1 tmps)) in *.
  assert (Hsrc_tmp : forall q, q ∈ pairs.*1 -> q ∉ tmps).
  { intros q Hq Hq'. destruct (Hpresent q Hq) as [c Hc].
    destruct (Hfresh q Hq') as [Hn _]. congruence. }
  assert (Hclean2 : clean_moves m1 (denied fs) (zip tmps pairs.*2)).
  { split; [rewrite Hz3; exact Htmps|]. split; [rewrite Hz4; exact Hdsts|].
    apply Forall_forall. intros [t d] Hin. rewrite Hperm. simpl.
    pose proof (elem_of_zip_l _ _ _ _ Hin) as Ht.
    pose proof (elem_of_zip_r _ _ _ _ Hin) as Hd.
    split; [|split; [|split; apply not_elem_of_empty]].
    - destruct (zip_partner_l pairs.*1 tmps t) as [s Hs];
        [rewrite length_fmap; lia | exact Ht |].
      rewrite (M1a _ _ Hs). apply Hpresent. eapply elem_of_zip_l, Hs.
    - assert (d ∉ tmps).
      { intros Hdt. destruct (Hfresh d Hdt) as [_ H]. exact (H Hd). }
      destruct (decide (d ∈ pairs.*1)) as [Hds|Hds]; [apply M1b, Hds|].
      rewrite M1c by assumption. destruct (Hfree d Hd); [assumption | contradiction]. }
  destruct (move_all_spec _ _ _ Hclean2) as (M2a & M2b & M2c).
  rewrite Hz3, Hz4 in *. subst m1.
  eexists. split; [|split; [|split; [|split]]].
  - unfold two_phase_rename.
    rewrite (stage1_clean os uuid pairs 0 [] fs tmps Hquar Hclean1)
      by (apply Forall_forall; intros t _; apply not_elem_of_nil).
    rewrite app_nil_l, stage2_clean by exact Hclean2.
    cbn [files denied renames]. rewrite length_zip, length_fmap, Hlen, Nat.min_id.
    reflexivity.
  - intros s d Hin. cbn [files].
    destruct (zip_through pairs tmps s d Hlen Hin) as (t & H1 & H2).
    rewrite (M2a _ _ H2). apply (M1a _ _ H1).
  - intros q Hqd Hqs. cbn [files].
    rewrite M2c by (auto using Hsrc_tmp). apply M1b, Hqs.
  - intros q Hqd Hqs. cbn [files].
    destruct (decide (q ∈ tmps)) as [Hqt|Hqt].
    + rewrite (M2b _ Hqt). symmetry. apply Hfresh, Hqt.
    + rewrite M2c by assumption. apply M1c; assumption.
  - cbn [renames]. lia.
Qed.

Lemma two_phase_rename_clean_batch_witness :
  exists fs',
    two_phase_rename Posix hex_token [(img_a, img_b); (img_b, img_a)] disk_ab
    = (Some (2, 0)%nat, fs')
    /\ (forall s d, (s, d) ∈ [(img_a, img_b); (img_b, img_a)] ->
                    files fs' !! d = files disk_ab !! s)
    /\ (forall q, q ∉ [(img_a, img_b); (img_b, img_a)].*2 ->
                  q ∈ [(img_a, img_b); (img_b, img_a)].*1 -> files fs' !! q = None)
    /\ (forall q, q ∉ [(img_a, img_b); (img_b, img_a)].*2 ->
                  q ∉ [(img_a, img_b); (img_b, img_a)].*1 ->
                  files fs' !! q = files disk_ab !! q)
    /\ renames fs' = (renames disk_ab + 2 * 2)%nat.
Proof.
  apply (two_phase_rename_clean_batch Posix hex_token
           [(img_a, img_b); (img_b, img_a)] disk_ab
           [[py "photos"; quarantine_name (hex_token 0) (py "a.png")];
            [py "photos"; quarantine_name (hex_token 1) (py "b.png")]]).
  - vm_compute. reflexivity.
  - apply (bool_decide_unpack _). vm_compute. exact I.
  - apply (bool_decide_unpack _). vm_compute. exact I.
  - apply (bool_decide_unpack _). vm_compute. exact I.
  - apply (bool_decide_unpack _). vm_compute. exact I.
  - apply (bool_decide_unpack _). vm_compute. exact I.
  - apply (bool_decide_unpack _). vm_compute. exact I.
  - reflexivity.
Defined.

Lemma stage1_all_missing os uuid pairs : forall k tmp_map fs,
  Forall (fun pr => fs_exists fs pr.1 = false) pairs ->
  stage1 os uuid k pairs tmp_map fs = (Some tmp_map, fs).
Proof.
  induction pairs as [|[s d] r IH]; intros k tmp_map fs H; simpl; [reflexivity|].
  apply Forall_cons in H as [Hs H]. simpl in Hs. rewrite Hs. simpl. apply IH, H.
Qed.

(** X10: a batch none of whose sources exists does nothing: it is
    reported as [(0, 0)] and the store is left as it was. *)
Theorem two_phase_rename_all_missing (os : platform) (uuid : nat -> str)
  (pairs : list (path * path)) (fs : FS)
  (Hmissing : Forall (fun pr => fs_exists fs pr.1 = false) pairs) :
  two_phase_rename os uuid pairs fs = (Some (0, 0)%nat, fs).
Proof.
  unfold two_phase_rename. rewrite stage1_all_missing by exact Hmissing. reflexivity.
Qed.

Lemma two_phase_rename_all_missing_witness :
  two_phase_rename Windows hex_token [(dest_x, img_a); (dest_x, img_b)] disk_ab
  = (Some (0, 0)%nat, disk_ab).
Proof.
  apply (two_phase_rename_all_missing Windows hex_token
           [(dest_x, img_a); (dest_x, img_b)] disk_ab).
  apply (bool_decide_unpack _). vm_compute. exact I.
Defined.

Lemma dict_set_length d k v : (length (dict_set d k v) <= S (length d))%nat.
Proof.
  induction d as [|[k' v'] d IH]; simpl; [lia|].
  destruct (bool_decide (k = k')); simpl; lia.
Qed.

Lemma stage1_map_length os uuid pairs : forall k tmp_map fs tmp_map',
  (stage1 os uuid k pairs tmp_map fs).1 = Some tmp_map' ->
  (length tmp_map' <= length tmp_map + length pairs)%nat.
Proof.
  induction pairs as [|[s d] r IH]; intros k tmp_map fs tmp_map'; simpl.
  - intros [= <-]. lia.
  - destruct (fs_exists fs s); simpl.
    + destruct (with_name _ _ _) as [t|]; [|discriminate].
      destruct (os_rename os fs s t) as [fs'|]; intros H; apply IH in H;
        [pose proof (dict_set_length tmp_map t d)|]; lia.
    + intros H. apply IH in H. lia.
Qed.

Lemma two_phase_counts_le os uuid pairs fs :
  match (two_phase_rename os uuid pairs fs).1 with
  | Some (ok, fail) => (ok + fail <= length pairs)%nat
  | None => True
  end.
Proof.
  unfold two_phase_rename.
  pose proof (stage1_map_length os uuid pairs 0 [] fs) as H1.
  destruct (stage1 os uuid 0 pairs [] fs) as [[tmp_map|] fs1]; [|exact I].
  specialize (H1 tmp_map eq_refl).
  pose proof (stage2_counts os tmp_map 0 0 fs1) as H2.
  destruct (stage2 os tmp_map 0 0 fs1) as [[ok fail] fs2]. simpl in *. lia.
Qed.

(** X11: the two counts returned never add up to more than the number of
    pairs given. *)
Theorem two_phase_rename_counts_bounded (os : platform) (uuid : nat -> str)
  (pairs : list (path * path)) (fs : FS) :
  match (two_phase_rename os uuid pairs fs).1 with
  | Some (ok, fail) => (ok + fail <= length pairs)%nat
  | None => True
  end.
Proof. apply two_phase_counts_le. Qed.

(** X12: on Windows, where a rename never replaces a file, no batch
    loses or duplicates a file: the store holds the same contents after
    the call as before it, whatever the pairs and the tokens. *)
Theorem two_phase_rename_windows_lossless (uuid : nat -> str)
  (pairs : list (path * path)) (fs : FS) :
  contents (two_phase_rename Windows uuid pairs fs).2 ≡ₚ contents fs.
Proof. apply two_phase_rename_windows_keeps_contents. Qed.




(** ** The rounds of the run *)

(** The five ways a round can go. *)
Lemma process_image_cases p env im st :
  exists cleaned,
    (opens im = false
     /\ process_image p env im st
        = Next (mkLoop cleaned (prepared_map p im st)
                  (rows st ++ [ledger_row im [] [] [] (py "READ_FAIL")])
                  (plan_pairs st) (prepared_disk p im st)))
    \/ (opens im = true /\ detect im = None
        /\ process_image p env im st
           = Escapes (mkLoop cleaned (prepared_map p im st) (rows st) (plan_pairs st)
                        (prepared_disk p im st)))
    \/ (opens im = true /\ detect im = Some false
        /\ process_image p env im st
           = Next (mkLoop cleaned (prepared_map p im st)
                     (rows st ++ [ledger_row im [] [] [] (py "NO_DET")])
                     (plan_pairs st) (prepared_disk p im st)))
    \/ (opens im = true /\ detect im = Some true
        /\ no_text (ocr_answer p env im) = true
        /\ process_image p env im st
           = Next (mkLoop cleaned (prepared_map p im st)
                     (rows st ++ [ledger_row im (ocr_answer p env im) [] []
                                             (py "NO_TEXT")])
                     (plan_pairs st) (save_crop p im (prepared_disk p im st))))
    \/ (opens im = true /\ detect im = Some true
        /\ no_text (ocr_answer p env im) = false
        /\ exists final index,
            plan_name (sanitize_and_upper (ocr_answer p env im))
                      (lower (suffix (img_path im)))
                      (default ∅ (prepared_map p im st !! sub_out_of p im))
                      (duplicates p) = Some (final, index)
            /\ process_image p env im st
               = Next (mkLoop cleaned
                         (<[sub_out_of p im := index]> (prepared_map p im st))
                         (rows st ++ [ledger_row im (ocr_answer p env im)
                                        (sanitize_and_upper (ocr_answer p env im))
                                        final (py "PLANNED")])
                         (plan_pairs st
                            ++ [(img_path im, joinpath (sub_out_of p im) final)])
                         (save_crop p im (prepared_disk p im st)))).
Proof.
  unfold process_image, prepared_map, prepared_disk, ocr_answer, no_text, ensure_dir.
  destruct (bool_decide (sub_out_of p im ∉ cleaned_subdirs st));
    [destruct (clean_out p)|]; cbv zeta iota beta; cbn [andb ensure_dir];
    eexists;
    (destruct (opens im); cbn [negb]; [|left; split; reflexivity]);
    (destruct (detect im) as [[]|];
       [ | right; right; left; repeat split; reflexivity
         | right; left; repeat split; reflexivity ]);
    (destruct (_ || _) eqn:Hno;
       [right; right; right; left; repeat split; reflexivity|]);
    right; right; right; right; (split; [reflexivity|]); (split; [reflexivity|]);
    (split; [reflexivity|]);
    match goal with
    | |- context [plan_name ?b ?e ?x ?d] =>
        destruct (plan_name_total b e x d) as [[final index] Hplan]
    end;
    exists final, index; rewrite Hplan; split; reflexivity.
Qed.

Lemma round_rows p env im st :
  match process_image p env im st with
  | Next st' =>
      exists row,
        rows st' = rows st ++ [row] /\ length row = 6%nat
        /\ row_status row ∈ [py "READ_FAIL"; py "NO_DET"; py "NO_TEXT"; py "PLANNED"]
        /\ if is_planned_row row
           then exists dst, plan_pairs st' = plan_pairs st ++ [(img_path im, dst)]
           else plan_pairs st' = plan_pairs st
  | Escapes st' => rows st' = rows st /\ plan_pairs st' = plan_pairs st
  end.
Proof.
  destruct (process_image_cases p env im st)
    as [cleaned [(_ & ->)|[(_ & _ & ->)|[(_ & _ & ->)|[(_ & _ & _ & ->)
         |(_ & _ & _ & final & index & _ & ->)]]]]]; cbn [rows plan_pairs].
  - eexists. split; [reflexivity|]. split; [reflexivity|].
    split; [apply (bool_decide_unpack _); vm_compute; exact I | reflexivity].
  - split; reflexivity.
  - eexists. split; [reflexivity|]. split; [reflexivity|].
    split; [apply (bool_decide_unpack _); vm_compute; exact I | reflexivity].
  - eexists. split; [reflexivity|]. split; [reflexivity|].
    split; [apply (bool_decide_unpack _); vm_compute; exact I | reflexivity].
  - eexists. split; [reflexivity|]. split; [reflexivity|].
    split; [apply (bool_decide_unpack _); vm_compute; exact I|].
    change (is_planned_row _) with true. cbv iota. eauto.
Qed.

(** X15: a round of the loop that ends normally adds exactly one row of
    six fields to the ledger, with one of the four statuses, and queues a
    rename for the image exactly when that status is [PLANNED]; a round
    left by an exception adds neither a row nor a rename. *)
Theorem round_adds_one_row (p : TaskParams) (env : option str) (im : image)
  (st : loop_state) :
  match process_image p env im st with
  | Next st' =>
      exists row,
        rows st' = rows st ++ [row] /\ length row = 6%nat
        /\ row_status row ∈ [py "READ_FAIL"; py "NO_DET"; py "NO_TEXT"; py "PLANNED"]
        /\ if is_planned_row row
           then exists dst, plan_pairs st' = plan_pairs st ++ [(img_path im, dst)]
           else plan_pairs st' = plan_pairs st
  | Escapes st' => rows st' = rows st /\ plan_pairs st' = plan_pairs st
  end.
Proof. apply round_rows. Qed.

(** What the loop adds to the ledger and to the queue. *)
Lemma process_all_rows p env images : forall st,
  exists new,
    rows (after (process_all p env images st)) = rows st ++ new
    /\ (length new <= length images)%nat
    /\ length (plan_pairs (after (process_all p env images st)))
       = (length (plan_pairs st) + length (List.filter is_planned_row new))%nat
    /\ (Forall (fun im => cancel_seen im = false) images ->
        forall st', process_all p env images st = Next st' ->
                    length new = length images).
Proof.
  induction images as [|im images IH]; intros st; simpl.
  - exists []. rewrite app_nil_r. simpl. repeat split; auto; lia.
  - destruct (cancel_seen im) eqn:Hc.
    { exists []. rewrite app_nil_r. simpl. repeat split; try lia.
      intros H. apply Forall_cons in H as [H _]. congruence. }
    pose proof (round_rows p env im st) as Hround.
    destruct (process_image p env im st) as [st1|st1].
    + destruct Hround as (row & Hrows & _ & _ & Hpairs).
      destruct (IH st1) as (new & Hnew & Hlen & Hcount & Hall).
      exists (row :: new). rewrite Hnew, Hrows, <- app_assoc. simpl.
      split; [reflexivity|]. split; [lia|]. split.
      * rewrite Hcount. destruct (is_planned_row row).
        -- destruct Hpairs as [dst ->]. rewrite length_app. simpl. lia.
        -- rewrite Hpairs. lia.
      * intros H st' Hst'. apply Forall_cons in H as [_ H].
        rewrite (Hall H st' Hst'). reflexivity.
    + destruct Hround as [Hrows Hpairs]. exists []. simpl.
      rewrite app_nil_r, Hrows, Hpairs. simpl. repeat split; try lia.
      intros _ st' H. discriminate H.
Qed.

(** X16: the statistics reported are consistent on every run: the
    number of planned renames is at most the number of images, and the
    renames reported as done or failed are together at most the planned
    ones. *)
Theorem run_stats_consistent (os : platform) (uuid : nat -> str) (p : TaskParams)
  (env : option str) (setup_ok : bool) (images : list image) (fs : FS) :
  (total (stats (run os uuid p env setup_ok images fs)) <= length images)%nat
  /\ (planned (stats (run os uuid p env setup_ok images fs))
      <= total (stats (run os uuid p env setup_ok images fs)))%nat
  /\ (renamed_ok (stats (run os uuid p env setup_ok images fs))
      + renamed_fail (stats (run os uuid p env setup_ok images fs))
      <= planned (stats (run os uuid p env setup_ok images fs)))%nat.
Proof.
  unfold run. destruct setup_ok; cbn [negb]; [|simpl; lia].
  destruct (length images =? 0)%nat; [simpl; lia|].
  destruct (process_all_rows p env images (mkLoop ∅ ∅ [] [] fs))
    as (new & _ & Hlen & Hcount & _).
  destruct (process_all p env images _) as [st|st]; [|simpl; lia].
  destruct (write_mapping_csv _ _ _) as [fs1|]; [|simpl; lia].
  simpl in Hcount.
  pose proof (List.filter_length_le is_planned_row new) as Hf.
  unfold perform_batch_rename. destruct (dry_run p); [simpl; lia|].
  pose proof (two_phase_counts_le os uuid (plan_pairs st) fs1) as Hc.
  destruct (two_phase_rename os uuid (plan_pairs st) fs1) as [[[ok fail]|] fs2];
    simpl in *; lia.
Qed.

Lemma process_all_cancel p env pre im post : forall st,
  cancel_seen im = true ->
  process_all p env (pre ++ im :: post) st = process_all p env pre st.
Proof.
  induction pre as [|x pre IH]; intros st Hc; simpl.
  - rewrite Hc. reflexivity.
  - destruct (cancel_seen x); [reflexivity|].
    destruct (process_image p env x st); [apply IH, Hc | reflexivity].
Qed.

(** X17: once the cancellation flag is seen at the top of a round, that
    image and all later ones are left unvisited, and what the earlier
    rounds produced (rows, queued renames, store) is kept as it is. *)
Theorem cancellation_keeps_earlier_rounds (p : TaskParams) (env : option str)
  (pre post : list image) (im : image) (st : loop_state)
  (Hcancel : cancel_seen im = true) :
  process_all p env (pre ++ im :: post) st = process_all p env pre st.
Proof. apply process_all_cancel, Hcancel. Qed.

Lemma cancellation_keeps_earlier_rounds_witness :
  process_all sample_params None
    ([sample_image] ++ mkImage img_b true true (Some true) false 8 [] [] :: [sample_image])
    (empty_loop disk_ab)
  = process_all sample_params None [sample_image] (empty_loop disk_ab).
Proof.
  apply (cancellation_keeps_earlier_rounds sample_params None [sample_image]
           [sample_image] (mkImage img_b true true (Some true) false 8 [] [])
           (empty_loop disk_ab)).
  reflexivity.
Defined.

(** X18: a dry run that finishes with code 0 on a non-empty list of
    images leaves a ledger made of the header and one row per round: at
    most one per image, exactly one per image when no cancellation was
    seen, and as many [PLANNED] rows as renames are reported planned. *)
Theorem dry_run_ledger (os : platform) (uuid : nat -> str) (p : TaskParams)
  (env : option str) (setup_ok : bool) (images : list image) (fs : FS)
  (Hdry : dry_run p = true) (Himages : images <> [])
  (Hcode : code (run os uuid p env setup_ok images fs) = 0%nat) :
  exists data,
    files (final_disk (run os uuid p env setup_ok images fs)) !! ledger_path p
    = Some (Table (LEDGER_HEADER :: data))
    /\ (length data <= length images)%nat
    /\ length (List.filter is_planned_row data)
       = planned (stats (run os uuid p env setup_ok images fs))
    /\ (Forall (fun im => cancel_seen im = false) images ->
        length data = length images).
Proof.
  revert Hcode. unfold run. destruct setup_ok; cbn [negb]; [|discriminate].
  destruct images as [|im images]; [contradiction|].
  change (length (im :: images) =? 0)%nat with false. cbv iota.
  destruct (process_all_rows p env (im :: images) (mkLoop ∅ ∅ [] [] fs))
    as (new & Hrows & Hlen & Hcount & Hall).
  destruct (process_all p env (im :: images) _) as [st|st] eqn:Hloop; [|discriminate].
  simpl in Hrows, Hcount.
  unfold write_mapping_csv. fold (ledger_path p).
  destruct (bool_decide (ledger_path p ∈ denied (disk st))); [discriminate|].
  rewrite Hdry. cbn [perform_batch_rename final_disk stats planned files]. intros _.
  exists new. rewrite lookup_insert_eq, Hrows.
  repeat split; auto. intros H. apply (Hall H st eq_refl).
Qed.

Lemma dry_run_ledger_witness :
  exists data,
    files (final_disk (run Posix hex_token sample_params None true [sample_image] disk_ab))
      !! ledger_path sample_params
    = Some (Table (LEDGER_HEADER :: data))
    /\ (length data <= length [sample_image])%nat
    /\ length (List.filter is_planned_row data)
       = planned (stats (run Posix hex_token sample_params None true [sample_image] disk_ab))
    /\ (Forall (fun im => cancel_seen im = false) [sample_image] ->
        length data = length [sample_image]).
Proof.
  apply (dry_run_ledger Posix hex_token sample_params None true [sample_image] disk_ab).
  - reflexivity.
  - discriminate.
  - vm_compute. reflexivity.
Defined.

(** ** What a dry run leaves alone *)

Lemma safe_clean_dir_outside fs target q :
  ~ strictly_under target q ->
  files (safe_clean_dir fs target) !! q = files fs !! q.
Proof.
  intros Hq. unfold safe_clean_dir. cbn [files].
  destruct (files fs !! q) as [c|] eqn:E.
  - apply map_lookup_filter_Some. split; [exact E|]. simpl. tauto.
  - apply map_lookup_filter_None. left. exact E.
Qed.

Lemma sub_out_under_root p im q :
  strictly_under (sub_out_of p im) q -> out_root p `prefix_of` q.
Proof.
  intros [H _]. unfold sub_out_of, joinpath in H. eapply prefix_app_l, H.
Qed.

Lemma prepared_disk_outside p im st q :
  ~ out_root p `prefix_of` q ->
  files (prepared_disk p im st) !! q = files (disk st) !! q.
Proof.
  intros Hq. unfold prepared_disk. destruct (_ && _); [|reflexivity].
  apply safe_clean_dir_outside. intros H. apply Hq, (sub_out_under_root p im q H).
Qed.

Lemma save_crop_outside p im fs q :
  (forall d, crop_dir p = Some d -> parent q <> d) ->
  files (save_crop p im fs) !! q = files fs !! q.
Proof.
  intros Hq. unfold save_crop. destruct (crop_dir p) as [d|]; [|reflexivity].
  destruct (_ && _); [|reflexivity]. cbn [files].
  apply lookup_insert_ne. intros <-. apply (Hq d eq_refl), parent_joinpath.
Qed.

Lemma process_image_outside p env im st q :
  ~ out_root p `prefix_of` q ->
  (forall d, crop_dir p = Some d -> parent q <> d) ->
  files (disk (after (process_image p env im st))) !! q = files (disk st) !! q.
Proof.
  intros Hroot Hcrop.
  destruct (process_image_cases p env im st)
    as [cleaned [(_ & ->)|[(_ & _ & ->)|[(_ & _ & ->)|[(_ & _ & _ & ->)
         |(_ & _ & _ & final & index & _ & ->)]]]]]; cbn [after disk];
    rewrite ?save_crop_outside by exact Hcrop;
    apply prepared_disk_outside, Hroot.
Qed.

Lemma process_all_outside p env images q : forall st,
  ~ out_root p `prefix_of` q ->
  (forall d, crop_dir p = Some d -> parent q <> d) ->
  files (disk (after (process_all p env images st))) !! q = files (disk st) !! q.
Proof.
  induction images as [|im images IH]; intros st Hroot Hcrop; simpl; [reflexivity|].
  destruct (cancel_seen im); [reflexivity|].
  pose proof (process_image_outside p env im st q Hroot Hcrop) as H.
  destruct (process_image p env im st) as [st1|st1]; simpl in *; [|exact H].
  rewrite IH by assumption. exact H.
Qed.

(** X19: a dry run leaves every file alone that lies neither under the
    output root nor in the crop directory and is not the ledger: after
    the run such a path holds what it held before, however the run ends. *)
Theorem dry_run_leaves_files_alone (os : platform) (uuid : nat -> str)
  (p : TaskParams) (env : option str) (setup_ok : bool) (images : list image)
  (fs : FS) (q : path)
  (Hdry : dry_run p = true)
  (Hroot : ~ out_root p `prefix_of` q)
  (Hcrop : forall d, crop_dir p = Some d -> parent q <> d)
  (Hledger : q <> ledger_path p) :
  files (final_disk (run os uuid p env setup_ok images fs)) !! q = files fs !! q.
Proof.
  unfold run. destruct setup_ok; cbn [negb]; [|reflexivity].
  destruct (length images =? 0)%nat; [reflexivity|].
  pose proof (process_all_outside p env images q (mkLoop ∅ ∅ [] [] fs) Hroot Hcrop) as H.
  destruct (process_all p env images _) as [st|st]; simpl in H; [|exact H].
  unfold write_mapping_csv. fold (ledger_path p).
  destruct (bool_decide _); [exact H|].
  rewrite Hdry. cbn [perform_batch_rename final_disk files].
  rewrite lookup_insert_ne by auto. exact H.
Qed.

Lemma dry_run_leaves_files_alone_witness :
  files (final_disk (run Posix hex_token sample_params None true [sample_image] disk_ab))
    !! img_a = files disk_ab !! img_a.
Proof.
  apply (dry_run_leaves_files_alone Posix hex_token sample_params None true
           [sample_image] disk_ab img_a).
  - reflexivity.
  - apply (bool_decide_unpack _). vm_compute. exact I.
  - intros d H. discriminate H.
  - discriminate.
Defined.

(** ** Destinations never collide *)

Lemma prepared_map_keeps p im st k idx :
  existing_map st !! k = Some idx -> prepared_map p im st !! k = Some idx.
Proof.
  intros H. unfold prepared_map.
  destruct (existing_map st !! sub_out_of p im) eqn:E; [exact H|].
  rewrite lookup_insert_ne; [exact H|]. intros <-. congruence.
Qed.

Lemma round_keeps_reserved p env im st :
  duplicates p = true -> is_suffix_form (suffix (img_path im)) = true ->
  destinations_reserved st ->
  destinations_reserved (after (process_image p env im st)).
Proof.
  intros Hdup Hext [Hnd Hres].
  assert (Hsame : forall cleaned rws fs,
             destinations_reserved
               (mkLoop cleaned (prepared_map p im st) rws (plan_pairs st) fs)).
  { intros cleaned rws fs. split; [exact Hnd|]. cbn [plan_pairs existing_map].
    intros dst Hin. destruct (Hres dst Hin) as (idx & Hidx & Hst).
    exists idx. split; [apply prepared_map_keeps, Hidx | exact Hst]. }
  destruct (process_image_cases p env im st)
    as [cleaned [(_ & ->)|[(_ & _ & ->)|[(_ & _ & ->)|[(_ & _ & _ & ->)
         |(_ & _ & _ & final & index & Hplan & ->)]]]]]; cbn [after];
    try apply Hsame.
  rewrite Hdup in Hplan. rewrite <- lower_suffix_form in Hext.
  destruct (planned_name_parts _ _ _ (sub_out_of p im) final index Hext Hplan)
    as (_ & _ & Hindex & Hfree & _).
  set (dst := joinpath (sub_out_of p im) final) in *.
  assert (Hparent : parent dst = sub_out_of p im) by apply parent_joinpath.
  split; cbn [plan_pairs existing_map]; rewrite fmap_app; simpl.
  - apply NoDup_app. split; [exact Hnd|]. split; [|apply NoDup_singleton].
    intros x Hx Hx'. apply list_elem_of_singleton in Hx'. subst x.
    destruct (Hres dst Hx) as (idx & Hidx & Hst). rewrite Hparent in Hidx.
    apply Hfree. rewrite (prepared_map_keeps p im st _ idx Hidx). exact Hst.
  - intros x Hx. apply elem_of_app in Hx as [Hx|Hx].
    + destruct (Hres x Hx) as (idx & Hidx & Hst).
      destruct (decide (parent x = sub_out_of p im)) as [Heq|Hne].
      * rewrite Heq, lookup_insert_eq. exists index. split; [reflexivity|].
        rewrite Heq in Hidx. rewrite Hindex.
        rewrite (prepared_map_keeps p im st _ idx Hidx). apply elem_of_union_r, Hst.
      * rewrite lookup_insert_ne by auto. exists idx.
        split; [apply prepared_map_keeps, Hidx | exact Hst].
    + apply list_elem_of_singleton in Hx. subst x.
      rewrite Hparent, lookup_insert_eq. exists index. split; [reflexivity|].
      rewrite Hindex. apply elem_of_union_l, elem_of_singleton. reflexivity.
Qed.

Lemma process_all_keeps_reserved p env images : forall st,
  duplicates p = true ->
  Forall (fun im => is_suffix_form (suffix (img_path im)) = true) images ->
  destinations_reserved st ->
  destinations_reserved (after (process_all p env images st)).
Proof.
  induction images as [|im images IH]; intros st Hdup Hext Hst; simpl; [exact Hst|].
  destruct (cancel_seen im); [exact Hst|].
  apply Forall_cons in Hext as [Him Hext].
  pose proof (round_keeps_reserved p env im st Hdup Him Hst) as H.
  destruct (process_image p env im st) as [st1|st1]; simpl in *; [|exact H].
  apply IH; assumption.
Qed.

(** X20: with duplicates enabled, the destinations queued by the loop are
    pairwise distinct, whatever the texts read and the folders involved,
    provided each image has an extension. *)
Theorem planned_destinations_distinct (p : TaskParams) (env : option str)
  (images : list image) (fs : FS)
  (Hdup : duplicates p = true)
  (Hext : Forall (fun im => is_suffix_form (suffix (img_path im)) = true) images) :
  NoDup (plan_pairs (after (process_all p env images (empty_loop fs)))).*2.
Proof.
  apply (process_all_keeps_reserved p env images (empty_loop fs) Hdup Hext).
  split; [constructor|]. intros dst H. inversion H.
Qed.

Lemma planned_destinations_distinct_witness :
  NoDup (plan_pairs (after (process_all sample_params None
                              [sample_image; sample_image] (empty_loop disk_ab)))).*2
  /\ length (plan_pairs (after (process_all sample_params None
                                  [sample_image; sample_image] (empty_loop disk_ab))))
     = 2%nat.
Proof.
  split; [|vm_compute; reflexivity].
  apply (planned_destinations_distinct sample_params None
           [sample_image; sample_image] disk_ab).
  - reflexivity.
  - apply (bool_decide_unpack _). vm_compute. exact I.
Defined.

Lemma lower_lower s : lower (lower s) = lower s.
Proof.
  unfold lower. rewrite map_map. apply map_ext. intros c. chars.
Qed.

(** X21: an OCR answer that is not empty and not marked as an error but
    holds no letter, digit or underscore is planned all the same, with
    an empty base: the image is queued for a rename to the bare
    lower-cased extension when duplicates are disabled, and to ["-n"]
    followed by that extension when they are enabled. *)
Theorem wordless_answer_is_planned (p : TaskParams) (env : option str) (im : image)
  (st : loop_state)
  (Hopen : opens im = true) (Hdet : detect im = Some true)
  (Htext : no_text (ocr_answer p env im) = false)
  (Hwordless : forallb (fun c => negb (is_word c)) (ocr_answer p env im) = true) :
  exists final st',
    process_image p env im st = Next st'
    /\ rows st' = rows st ++ [ledger_row im (ocr_answer p env im) [] final (py "PLANNED")]
    /\ plan_pairs st' = plan_pairs st
                        ++ [(img_path im, joinpath (sub_out_of p im) final)]
    /\ (duplicates p = false -> final = lower (suffix (img_path im)))
    /\ (duplicates p = true ->
        exists n, (1 <= n)%nat
                  /\ final = py "-" ++ str_of_nat n ++ lower (suffix (img_path im))).
Proof.
  apply sanitize_empty in Hwordless.
  destruct (process_image_cases p env im st)
    as [cleaned [(H & _)|[(_ & H & _)|[(_ & H & _)|[(_ & _ & H & _)
         |(_ & _ & _ & final & index & Hplan & ->)]]]]]; try congruence.
  rewrite Hwordless in *. exists final. eexists.
  split; [reflexivity|]. split; [reflexivity|]. split; [reflexivity|].
  split; intros Hdup; rewrite Hdup in Hplan.
  - unfold plan_name in Hplan. cbn [negb] in Hplan. injection Hplan as <- _.
    rewrite lower_lower. reflexivity.
  - destruct (plan_name_dup [] (lower (suffix (img_path im)))
                (default ∅ (prepared_map p im st !! sub_out_of p im)))
      as (n & Hn & Heq & _).
    rewrite Heq in Hplan. injection Hplan as <- _.
    exists n. split; [exact Hn|].
    rewrite lower_lower. reflexivity.
Qed.

Lemma wordless_answer_is_planned_witness :
  exists final st',
    process_image keyed_params None garbled_image (empty_loop disk_ab) = Next st'
    /\ rows st' = rows (empty_loop disk_ab)
                  ++ [ledger_row garbled_image (ocr_answer keyed_params None garbled_image)
                        [] final (py "PLANNED")]
    /\ plan_pairs st' = plan_pairs (empty_loop disk_ab)
                        ++ [(img_path garbled_image,
                             joinpath (sub_out_of keyed_params garbled_image) final)]
    /\ (duplicates keyed_params = false -> final = lower (suffix (img_path garbled_image)))
    /\ (duplicates keyed_params = true ->
        exists n, (1 <= n)%nat
                  /\ final = py "-" ++ str_of_nat n
                             ++ lower (suffix (img_path garbled_image))).
Proof.
  apply (wordless_answer_is_planned keyed_params None garbled_image (empty_loop disk_ab));
    reflexivity.
Defined.

(** ** The manual page *)

Module ManualFacts.
Import Manual.

Lemma load_current_images pg : images (load_current pg) = images pg.
Proof. unfold load_current. destruct (shown pg); reflexivity. Qed.

Lemma load_current_cur pg : cur (load_current pg) = cur pg.
Proof. unfold load_current. destruct (shown pg); reflexivity. Qed.

Lemma next_images pg : images (next pg) = images pg.
Proof.
  unfold next. destruct (cur pg <? 0)%Z; [reflexivity|].
  destruct (_ <? _)%Z; [rewrite load_current_images|]; reflexivity.
Qed.

Lemma prev_images pg : images (prev pg) = images pg.
Proof.
  unfold prev. destruct (cur pg <=? 0)%Z; [|rewrite load_current_images]; reflexivity.
Qed.

Lemma next_in_bounds pg : in_bounds pg -> in_bounds (next pg).
Proof.
  unfold in_bounds. intros H. rewrite next_images. unfold next.
  destruct (Z.ltb_spec (cur pg) 0); [exact H|].
  destruct (Z.ltb_spec (cur pg + 1) (Z.of_nat (length (images pg)))); [|exact H].
  rewrite load_current_cur. simpl. right. lia.
Qed.

Lemma prev_in_bounds pg : in_bounds pg -> in_bounds (prev pg).
Proof.
  unfold in_bounds. intros H. rewrite prev_images. unfold prev.
  destruct (Z.leb_spec (cur pg) 0); [exact H|].
  rewrite load_current_cur. simpl. right. lia.
Qed.

Lemma free_name_free fuel os fs src base ext : forall n cand,
  free_name fuel os fs src base ext n = Done cand -> fs_exists fs cand = false.
Proof.
  induction fuel as [|k IH]; intros n cand; simpl; [discriminate|].
  destruct (with_name _ _ _) as [c|]; [|discriminate].
  destruct (fs_exists fs c) eqn:E; [apply IH|]. intros [= <-]. exact E.
Qed.

Lemma with_name_Some os src n dst :
  with_name os src n = Some dst -> dst = joinpath (parent src) n.
Proof.
  unfold with_name. destruct (bool_decide _); [discriminate|].
  destruct (valid_name os n); [|discriminate]. intros [= <-]. reflexivity.
Qed.

Lemma candidate_inj (dir : path) (base ext : str) m m' :
  joinpath dir (base ++ py "-" ++ str_of_nat m ++ ext)
  = joinpath dir (base ++ py "-" ++ str_of_nat m' ++ ext) -> m = m'.
Proof.
  unfold joinpath. intros H. apply app_inv_head in H. injection H as H.
  apply app_inv_head in H. injection H as H. apply app_inv_tail in H.
  apply str_of_nat_inj, H.
Qed.

Lemma free_name_timeout fuel os fs src base ext : forall n,
  free_name fuel os fs src base ext n = Timeout ->
  forall m, (n <= m < n + fuel)%nat ->
    fs_exists fs (joinpath (parent src) (base ++ py "-" ++ str_of_nat m ++ ext)) = true.
Proof.
  induction fuel as [|k IH]; intros n H m Hm; [lia|]. simpl in H.
  destruct (with_name _ _ _) as [c|] eqn:Hc; [|discriminate].
  apply with_name_Some in Hc. subst c.
  destruct (fs_exists fs _) eqn:E; [|discriminate].
  destruct (decide (m = n)) as [->|Hne]; [exact E|].
  apply (IH (S n) H). lia.
Qed.

(** The loop never needs more rounds than it is given. *)
Lemma free_name_total os fs src base ext n :
  free_name (S (size (files fs))) os fs src base ext n <> Timeout.
Proof.
  intros H. pose proof (free_name_timeout _ _ _ _ _ _ _ H) as Hall.
  set (f := fun m => joinpath (parent src) (base ++ py "-" ++ str_of_nat m ++ ext)).
  set (X := list_to_set (f <$> seq n (S (size (files fs)))) : gset path).
  assert (Hsub : X ⊆ dom (files fs)).
  { intros q Hq. unfold X in Hq. apply elem_of_list_to_set in Hq.
    apply list_elem_of_fmap in Hq as (m & -> & Hm). apply elem_of_seq in Hm.
    specialize (Hall m Hm). unfold fs_exists in Hall.
    apply bool_decide_eq_true in Hall. apply elem_of_dom. exact Hall. }
  assert (Hsize : size X = S (size (files fs))).
  { unfold X. rewrite size_list_to_set.
    - rewrite length_fmap, length_seq. reflexivity.
    - apply NoDup_fmap_2; [|apply NoDup_seq].
      intros a b Hab. exact (candidate_inj _ _ _ _ _ Hab). }
  apply subseteq_size in Hsub. rewrite size_dom in Hsub. lia.
Qed.

(** A rename onto a free path, or onto the source itself, keeps every
    content, on either platform. *)
Lemma os_rename_onto_free os fs a b fs' :
  os_rename os fs a b = Some fs' -> fs_exists fs b = false \/ b = a ->
  contents fs' ≡ₚ contents fs
  /\ (forall q, q <> a -> q <> b -> files fs' !! q = files fs !! q)
  /\ files fs' !! b = files fs !! a
  /\ (b <> a -> files fs' !! a = None).
Proof.
  unfold os_rename, contents. intros H Hb.
  destruct (bool_decide _); [discriminate|].
  destruct (files fs !! a) as [c|] eqn:Ha; [|discriminate].
  destruct (bool_decide (a = b)) eqn:Heq.
  { apply bool_decide_eq_true in Heq. subst b. injection H as <-. cbn [files].
    repeat split; auto. intros Hne. contradiction. }
  apply bool_decide_eq_false in Heq.
  destruct Hb as [Hb|Hb]; [|congruence].
  rewrite Hb in H. injection H as <-. cbn [files].
  unfold fs_exists in Hb. apply bool_decide_eq_false in Hb.
  rewrite <- eq_None_not_Some in Hb.
  split; [|split; [|split]].
  - rewrite map_to_list_insert by (rewrite lookup_delete_ne by exact Heq; exact Hb).
    rewrite <- (map_to_list_delete (files fs) a c Ha). reflexivity.
  - intros q Hqa Hqb. rewrite lookup_insert_ne, lookup_delete_ne by auto. reflexivity.
  - rewrite lookup_insert_eq. reflexivity.
  - intros _. rewrite lookup_insert_ne by auto. apply lookup_delete_eq.
Qed.

(** How [save_and_next] can end. *)
Lemma save_and_next_cases os pg fs :
  save_and_next os pg fs = Raises
  \/ save_and_next os pg fs = Done (pg, fs)
  \/ save_and_next os pg fs = Done (next pg, fs)
  \/ exists src dst fs',
       images pg !! Z.to_nat (cur pg) = Some src
       /\ (fs_exists fs dst = false \/ dst = src)
       /\ os_rename os fs src dst = Some fs'
       /\ save_and_next os pg fs
          = Done (next (mkPage (<[Z.to_nat (cur pg) := dst]> (images pg))
                               (cur pg) (form pg)), fs').
Proof.
  unfold save_and_next.
  destruct (cur pg <? 0)%Z; [auto|].
  destruct (images pg !! Z.to_nat (cur pg)) as [src|] eqn:Hsrc; [|auto].
  destruct (truthy _); [|auto]. cbv zeta.
  destruct (with_name os src _) as [dst0|]; [|auto].
  destruct (fs_exists fs dst0 && negb (bool_decide (dst0 = src))) eqn:Hc.
  - pose proof (free_name_total os fs src
                  (sanitize_and_upper (compose_base (form pg)))
                  (lower (suffix src)) 2) as Htot.
    destruct (free_name _ _ _ _ _ _ _) as [dst| |] eqn:Hfree; [|auto|contradiction].
    apply free_name_free in Hfree.
    destruct (os_rename os fs src dst) as [fs'|] eqn:Hren; [|auto].
    right. right. right. exists src, dst, fs'. auto.
  - destruct (os_rename os fs src dst0) as [fs'|] eqn:Hren; [|auto].
    right. right. right. exists src, dst0, fs'.
    split; [reflexivity|]. split; [|auto].
    apply andb_false_iff in Hc as [Hc|Hc]; [left; exact Hc|].
    right. apply negb_false_iff, bool_decide_eq_true in Hc. exact Hc.
Qed.

(** X22: the current index never leaves the list.  From a page whose
    index is in range (or is [-1] on an empty list), going back, going
    forward and saving all lead to such a page again, with a list of the
    same length. *)
Theorem navigation_stays_in_bounds (os : platform) (pg : page) (fs : FS)
  (Hpg : in_bounds pg) :
  in_bounds (prev pg) /\ images (prev pg) = images pg
  /\ in_bounds (next pg) /\ images (next pg) = images pg
  /\ match save_and_next os pg fs with
     | Done (pg', _) => in_bounds pg' /\ length (images pg') = length (images pg)
     | _ => True
     end.
Proof.
  split; [apply prev_in_bounds, Hpg|]. split; [apply prev_images|].
  split; [apply next_in_bounds, Hpg|]. split; [apply next_images|].
  destruct (save_and_next_cases os pg fs)
    as [->|[->|[->|(src & dst & fs' & Hsrc & _ & _ & ->)]]]; [exact I|auto| |].
  - split; [apply next_in_bounds, Hpg | rewrite next_images; reflexivity].
  - rewrite next_images. cbn [images]. rewrite length_insert.
    split; [|reflexivity]. apply next_in_bounds.
    unfold in_bounds. cbn [images cur]. rewrite length_insert.
    destruct Hpg as [[Hnil _]|Hpg]; [|right; exact Hpg].
    rewrite Hnil in Hsrc. discriminate Hsrc.
Qed.

Lemma navigation_stays_in_bounds_witness :
  in_bounds (prev sample_page) /\ images (prev sample_page) = images sample_page
  /\ in_bounds (next sample_page) /\ images (next sample_page) = images sample_page
  /\ match save_and_next Posix sample_page disk_ab with
     | Done (pg', _) =>
         in_bounds pg' /\ length (images pg') = length (images sample_page)
     | _ => True
     end.
Proof.
  apply (navigation_stays_in_bounds Posix sample_page disk_ab).
  right. vm_compute. split; [discriminate | reflexivity].
Defined.

(** X23: saving from the manual page never loses a file, on either
    platform: the name it renames to is free, or is the file's own, so
    the store holds the same contents afterwards; and the search for a
    free name always ends. *)
Theorem save_and_next_lossless (os : platform) (pg : page) (fs : FS) :
  match save_and_next os pg fs with
  | Done (_, fs') => contents fs' ≡ₚ contents fs
  | Raises => True
  | Timeout => False
  end.
Proof.
  destruct (save_and_next_cases os pg fs)
    as [->|[->|[->|(src & dst & fs' & _ & Hfree & Hren & ->)]]];
    [exact I | reflexivity | reflexivity |].
  apply (os_rename_onto_free os fs src dst fs' Hren Hfree).
Qed.

Lemma insert_middle (l : list path) i x y :
  l !! i = Some x -> exists l1 l2, l = l1 ++ x :: l2 /\ <[i := y]> l = l1 ++ y :: l2.
Proof.
  intros H. exists (take i l), (drop (S i) l). split.
  - symmetry. apply take_drop_middle, H.
  - apply insert_take_drop. eapply lookup_lt_Some, H.
Qed.

(** X24: the list of the manual page stays in step with the disk.  If
    its entries are distinct and each names an existing file, the same
    holds after a save, whether the rename went through (the entry then
    names the new file) or failed (list and store are as before). *)
Theorem save_and_next_keeps_sync (os : platform) (pg : page) (fs : FS)
  (Hsync : in_sync pg fs) :
  match save_and_next os pg fs with
  | Done (pg', fs') => in_sync pg' fs'
  | _ => True
  end.
Proof.
  destruct (save_and_next_cases os pg fs)
    as [->|[->|[->|(src & dst & fs' & Hsrc & Hfree & Hren & ->)]]];
    [exact I | exact Hsync | unfold in_sync; rewrite next_images; exact Hsync |].
  unfold in_sync. rewrite next_images. cbn [images].
  destruct Hsync as [Hnd Hall]. rewrite Forall_forall in Hall.
  destruct (os_rename_onto_free os fs src dst fs' Hren Hfree)
    as (_ & Hother & Hdst & Hgone).
  assert (Hsome : is_Some (files fs !! src)).
  { apply Hall. eapply list_elem_of_lookup_2, Hsrc. }
  destruct (decide (dst = src)) as [->|Hne].
  { rewrite list_insert_id by exact Hsrc. split; [exact Hnd|].
    apply Forall_forall. intros q Hq.
    destruct (decide (q = src)) as [->|Hq']; [rewrite Hdst; exact Hsome|].
    rewrite Hother by auto. apply Hall, Hq. }
  destruct Hfree as [Hfree|Hfree]; [|contradiction].
  assert (Hnew : dst ∉ images pg).
  { intros Hin. apply Hall in Hin. unfold fs_exists in Hfree.
    apply bool_decide_eq_false in Hfree. contradiction. }
  destruct (insert_middle (images pg) (Z.to_nat (cur pg)) src dst Hsrc)
    as (l1 & l2 & Hl & ->).
  rewrite Hl in Hnd, Hnew, Hall.
  apply NoDup_app in Hnd as (Hnd1 & Hdisj & Hnd2).
  apply NoDup_cons in Hnd2 as [Hsrc2 Hnd2].
  split.
  - apply NoDup_app. split; [exact Hnd1|]. split.
    + intros q Hq Hq'. apply elem_of_cons in Hq' as [->|Hq'].
      * apply Hnew, elem_of_app. left. exact Hq.
      * apply (Hdisj q Hq). right. exact Hq'.
    + apply NoDup_cons. split; [|exact Hnd2].
      intros Hin. apply Hnew, elem_of_app. right. right. exact Hin.
  - apply Forall_forall. intros q Hq.
    destruct (decide (q = dst)) as [->|Hqd]; [rewrite Hdst; exact Hsome|].
    assert (Hq0 : q ∈ l1 ++ src :: l2).
    { apply elem_of_app in Hq as [Hq|Hq]; [apply elem_of_app; left; exact Hq|].
      apply elem_of_cons in Hq as [->|Hq]; [contradiction|].
      apply elem_of_app. right. right. exact Hq. }
    assert (q <> src).
    { intros ->. apply elem_of_app in Hq as [Hq|Hq].
      - apply (Hdisj src Hq). left.
      - apply elem_of_cons in Hq as [Hq|Hq]; [congruence | contradiction]. }
    rewrite Hother by auto. apply Hall, Hq0.
Qed.

Lemma save_and_next_keeps_sync_witness :
  match save_and_next Posix sample_page disk_ab with
  | Done (pg', fs') => in_sync pg' fs'
  | _ => True
  end
  /\ exists fs', save_and_next Posix sample_page disk_ab
                 = Done (mkPage [[py "photos"; py "TAG.png"]; img_b] 1
                           (mkFields [] [] [] [] false false false false false), fs').
Proof.
  split.
  - apply (save_and_next_keeps_sync Posix sample_page disk_ab).
    split; apply (bool_decide_unpack _); vm_compute; exact I.
  - eexists. vm_compute. reflexivity.
Defined.

End ManualFacts.

(** ** Listing images *)

Lemma image_path_has_extension p :
  is_image_path p = true -> is_suffix_form (suffix p) = true.
Proof.
  unfold is_image_path. intros H. apply bool_decide_eq_true in H.
  destruct (suffix_is_form p) as [Hnil|Hform]; [|exact Hform].
  rewrite Hnil in H. exfalso. revert H. apply (bool_decide_unpack _).
  vm_compute. exact I.
Qed.

(** X25: what [iter_images] yields are existing files inside the folder
    whose name has an extension; and the destination planned for such a
    file with duplicates enabled is again an image path, with the
    lower-cased extension of the source. *)
Theorem listed_images_stay_images (fs : FS) (folder : path) (recursive : bool)
  (q : path) (base : str) (existing : gset str) (final : str) (index : gset str)
  (out : path)
  (Hlisted : q ∈ iter_images fs folder recursive)
  (Hplan : plan_name base (lower (suffix q)) existing true = Some (final, index)) :
  fs_exists fs q = true
  /\ folder `prefix_of` q
  /\ is_suffix_form (suffix q) = true
  /\ suffix (joinpath out final) = lower (suffix q)
  /\ is_image_path (joinpath out final) = true.
Proof.
  assert (Hl : ((if recursive then strictly_under folder q
                 else parent q = folder /\ q <> []) /\ is_image_path q = true)
               /\ q ∈ dom (files fs)).
  { unfold iter_images in Hlisted.
    destruct recursive; apply elem_of_filter in Hlisted; exact Hlisted. }
  destruct Hl as [[Hin Himg] Hdom]. apply elem_of_dom in Hdom.
  pose proof (image_path_has_extension q Himg) as Hform.
  assert (Hform' : is_suffix_form (lower (suffix q)) = true)
    by (rewrite lower_suffix_form; exact Hform).
  destruct (planned_name_parts base _ existing out final index Hform' Hplan)
    as (Hsuf & _).
  rewrite lower_lower in Hsuf.
  split; [apply bool_decide_eq_true; exact Hdom|]. split.
  - destruct recursive; [apply Hin|].
    destruct Hin as [<- Hne]. unfold parent.
    destruct (exists_last Hne) as (l & a & ->).
    rewrite removelast_last. apply prefix_app_r. reflexivity.
  - split; [exact Hform|]. split; [exact Hsuf|].
    unfold is_image_path in *. rewrite Hsuf, lower_lower. exact Himg.
Qed.

Lemma listed_images_stay_images_witness :
  fs_exists disk_ab img_a = true
  /\ [py "photos"] `prefix_of` img_a
  /\ is_suffix_form (suffix img_a) = true
  /\ suffix (joinpath [py "out"] (py "TAG-1.png")) = lower (suffix img_a)
  /\ is_image_path (joinpath [py "out"] (py "TAG-1.png")) = true.
Proof.
  apply (listed_images_stay_images disk_ab [py "photos"] false img_a (py "tag") ∅
           (py "TAG-1.png") ({[py "TAG-1"]} ∪ ∅) [py "out"]).
  - apply (bool_decide_unpack _). vm_compute. exact I.
  - vm_compute. reflexivity.
Defined.

(** ** unique_out_dir *)


Section UniqueOutDir.

Variable taken : gset path.
Variable parent_dir : path.
Variable base : str.



End UniqueOutDir.



(** ** The crop box *)

(** X27: the box handed to [image.crop] always starts at non-negative
    coordinates and is at least one pixel wide and one pixel high; a box
    that already is, is passed on unchanged. *)
Theorem crop_box_is_proper (x1 y1 x2 y2 : Z) :
  (let '(a, b, c, d) := crop_box x1 y1 x2 y2 in
   0 <= a < c /\ 0 <= b < d /\ a <= Z.max 0 x1 /\ x2 <= c /\ y2 <= d)%Z
  /\ ((0 <= x1 < x2)%Z -> (0 <= y1 < y2)%Z -> crop_box x1 y1 x2 y2 = (x1, y1, x2, y2)).
Proof.
  unfold crop_box. split; [cbv zeta; lia|].
  intros Hx Hy. cbv zeta. repeat f_equal; lia.
Qed.

(** ** The OCR back ends *)

Lemma linebreak_is_space c : is_linebreak c = true -> is_space c = true.
Proof. intros H. unfold is_linebreak in H. chars. Qed.

Lemma splitlines_go_cons cur c r :
  splitlines_go cur (c :: r) =
  if is_linebreak c then
    match r with
    | d :: r' =>
        if (c =? 13) && (d =? 10) then cur :: splitlines_go [] r'
        else cur :: splitlines_go [] r
    | [] => [cur]
    end
  else splitlines_go (cur ++ [c]) r.
Proof. reflexivity. Qed.

Lemma splitlines_go_concat s : forall cur,
  concat (splitlines_go cur s) = cur ++ List.filter (fun c => negb (is_linebreak c)) s.
Proof.
  induction s as [s IH] using (induction_ltof1 _ (@length N)); unfold ltof in IH.
  intros cur. destruct s as [|c r].
  - destruct cur; simpl; rewrite ?app_nil_r; reflexivity.
  - rewrite splitlines_go_cons. cbn [List.filter].
    destruct (is_linebreak c) eqn:Ec; cbn [negb].
    + destruct r as [|d r']; [simpl; rewrite app_nil_r; reflexivity|].
      destruct ((c =? 13) && (d =? 10)) eqn:Ecd; cbn [concat].
      * rewrite IH by (simpl; lia). cbn [app List.filter].
        apply andb_true_iff in Ecd as [_ Ed]. apply N.eqb_eq in Ed. subst d.
        reflexivity.
      * rewrite IH by (simpl; lia). reflexivity.
    + rewrite IH by (simpl; lia). rewrite <- app_assoc. reflexivity.
Qed.

Lemma splitlines_go_no_break s : forall cur,
  forallb (fun c => negb (is_linebreak c)) cur = true ->
  Forall (fun ln => forallb (fun c => negb (is_linebreak c)) ln = true)
         (splitlines_go cur s).
Proof.
  induction s as [s IH] using (induction_ltof1 _ (@length N)); unfold ltof in IH.
  intros cur Hcur. destruct s as [|c r].
  - destruct cur; repeat constructor. exact Hcur.
  - rewrite splitlines_go_cons. destruct (is_linebreak c) eqn:Ec.
    + destruct r as [|d r']; [repeat constructor; exact Hcur|].
      destruct ((c =? 13) && (d =? 10)); constructor; try exact Hcur;
        apply IH; simpl; auto; lia.
    + apply IH; [simpl; lia|]. rewrite forallb_app, Hcur. simpl. rewrite Ec.
      reflexivity.
Qed.

Lemma strip_blank p s : forallb p s = true -> strip p s = [].
Proof.
  intros H. unfold strip, lstrip, rstrip.
  assert (Hd : drop_while p s = []).
  { induction s as [|c s IH]; simpl in *; [reflexivity|].
    apply andb_true_iff in H as [-> H]. auto. }
  rewrite Hd. reflexivity.
Qed.

Lemma nonblank_iff ln :
  nonblank ln = true <-> existsb (fun c => negb (is_space c)) ln = true.
Proof.
  unfold nonblank. split.
  - intros H. destruct (existsb _ ln) eqn:E; [reflexivity|].
    assert (Hall : forallb is_space ln = true).
    { rewrite forallb_forall. intros c Hc.
      destruct (is_space c) eqn:Ec; [reflexivity|].
      assert (existsb (fun c => negb (is_space c)) ln = true)
        by (apply existsb_exists; exists c; rewrite Ec; auto).
      congruence. }
    rewrite (strip_blank _ _ Hall) in H. discriminate H.
  - intros H. apply existsb_exists in H as (c & Hc & Hsp).
    destruct (strip_split is_space ln) as (k1 & k2 & Hs & H1 & H2).
    destruct (strip is_space ln) as [|x r] eqn:E; [|reflexivity].
    exfalso. rewrite Hs in Hc. simpl in Hc.
    rewrite forallb_forall in H1, H2.
    apply in_app_or in Hc as [Hc|Hc];
      [rewrite (H1 c Hc) in Hsp | rewrite (H2 c Hc) in Hsp]; discriminate Hsp.
Qed.

Lemma last_filter_in (q : str -> bool) (l : list str) :
  List.filter q l <> [] ->
  In (List.last (List.filter q l) []) l /\ q (List.last (List.filter q l) []) = true.
Proof.
  intros Hne. apply filter_In.
  destruct (exists_last Hne) as (l' & a & E). rewrite E, last_last.
  rewrite <- E. rewrite E. apply in_or_app. right. left. reflexivity.
Qed.

Lemma last_line_facts content :
  forallb (fun c => negb (is_linebreak c)) (last_nonblank_line content) = true
  /\ (last_nonblank_line content = []
      <-> forallb is_space content = true)
  /\ (last_nonblank_line content <> [] -> nonblank (last_nonblank_line content) = true).
Proof.
  unfold last_nonblank_line.
  set (text := strip is_space content).
  set (lines := splitlines text).
  assert (Hnb : Forall (fun ln => forallb (fun c => negb (is_linebreak c)) ln = true) lines)
    by (apply splitlines_go_no_break; reflexivity).
  rewrite Forall_forall in Hnb.
  destruct (List.filter nonblank lines) as [|l0 ls] eqn:Ef.
  - split; [reflexivity|]. split; [|intros H; contradiction].
    split; [intros _|reflexivity].
    (* no non-blank line: the content is blank *)
    destruct (forallb is_space content) eqn:Hall; [reflexivity | exfalso].
    assert (Hex : exists c, In c content /\ is_space c = false).
    { clear -Hall. induction content as [|c r IH]; simpl in Hall; [discriminate|].
      destruct (is_space c) eqn:Ec.
      - destruct (IH Hall) as (x & Hx & Hs). exists x. split; [right|]; assumption.
      - exists c. split; [left; reflexivity | exact Ec]. }
    destruct Hex as (c & Hc & Hsp).
    destruct (strip_split is_space content) as (k1 & k2 & Hs & H1 & H2).
    fold text in Hs. rewrite forallb_forall in H1, H2.
    assert (Hct : In c text).
    { rewrite Hs in Hc. apply in_app_or in Hc as [Hc|Hc];
        [rewrite (H1 c Hc) in Hsp; discriminate|].
      apply in_app_or in Hc as [Hc|Hc]; [exact Hc|].
      rewrite (H2 c Hc) in Hsp. discriminate. }
    assert (Hcl : In c (concat lines)).
    { unfold lines, splitlines. rewrite splitlines_go_concat. simpl.
      apply filter_In. split; [exact Hct|].
      destruct (is_linebreak c) eqn:El; [|reflexivity].
      rewrite (linebreak_is_space c El) in Hsp. discriminate. }
    apply in_concat in Hcl as (ln & Hln & Hcln).
    assert (Hin : In ln (List.filter nonblank lines)).
    { apply filter_In. split; [exact Hln|]. apply nonblank_iff, existsb_exists.
      exists c. rewrite Hsp. auto. }
    rewrite Ef in Hin. destruct Hin.
  - assert (Hne : List.filter nonblank lines <> []) by (rewrite Ef; discriminate).
    destruct (last_filter_in nonblank lines Hne) as [Hin Hq]. rewrite Ef in Hin, Hq.
    set (res := List.last (l0 :: ls) []) in *.
    split; [apply Hnb, list_elem_of_In, Hin|].
    assert (Hres : res <> []).
    { intros H. rewrite H in Hq. discriminate Hq. }
    split; [|intros _; exact Hq].
    split; [intros H; contradiction|]. intros Hall. exfalso.
    assert (Ht : text = []) by (apply strip_blank, Hall).
    unfold lines in Ef. rewrite Ht in Ef. discriminate Ef.
Qed.

(** X28: what a back end makes of the content of a reply, its last
    non-blank line, holds no line break; it is empty exactly when the
    content is blank; and when it is not empty it is not blank either. *)
Theorem last_nonblank_line_shape (content : str) :
  forallb (fun c => negb (is_linebreak c)) (last_nonblank_line content) = true
  /\ (last_nonblank_line content = [] <-> forallb is_space content = true)
  /\ (last_nonblank_line content <> [] -> nonblank (last_nonblank_line content) = true).
Proof. apply last_line_facts. Qed.


